(** * Webmesh control plane: a shallow embedding of the mesh store observer,
    the Join RPC, the DeleteNetworkACL admin RPC and the campfire session.

    Collaborators that live outside the embedded functions (the raft
    engine, the registry, the IPAM allocator, WebRTC) are represented by
    records of their observable answers; every call the embedded code makes
    to one of them is recorded in an effect trace, so that properties about
    "which calls are issued" are statements about that trace. *)

From stdpp Require Import base gmap strings list pretty.
From Stdlib Require Import ZArith Lia Ascii.

Open Scope Z_scope.

(* ------------------------------------------------------------------ *)
(** ** Registry node records (pkg/meshdb/peers) *)

Module Peers.

(** [peers.Node] as the observer and the Join service use it. Addresses,
    prefixes and keys are kept as their canonical string forms; the empty
    string stands for the invalid zero value of [netip.Addr]. *)
Record Node := {
  ID : string;
  PublicKey : string;
  PrimaryEndpoint : string;
  Endpoints : list string;
  NetworkIPv6 : string;
  PrivateIPv4 : string;
  GRPCPort : Z;
  RaftPort : Z;
  WireguardPort : Z;
}.

#[global] Instance Node_eq_dec : EqDecision Node.
Proof. intros [] []; solve_decision. Defined.

End Peers.

(* ------------------------------------------------------------------ *)
(** ** The raft observer (pkg/mesh, newObserver) *)

Module Observer.
Import Peers.

Inductive Suffrage := Voter | Nonvoter | Staging.

(** [raft.Server] *)
Record Server := { ServerID : string; ServerSuffrage : Suffrage }.

(** The observation payloads the callback switches on. *)
Inductive Observation :=
| FailedHeartbeatObservation (PeerID : string)
| ResumedHeartbeatObservation (PeerID : string)
| PeerObservation (Peer : Server) (Removed : bool)
| LeaderObservation (LeaderID : string).

Inductive WatchEvent :=
| WATCH_EVENT_NODE_JOIN | WATCH_EVENT_NODE_LEAVE | WATCH_EVENT_LEADER_CHANGE.

Inductive ClusterStatus :=
| CLUSTER_STATUS_UNKNOWN | CLUSTER_VOTER | CLUSTER_NON_VOTER | CLUSTER_LEADER.

(** [node.Proto(status)]: the serialised node together with its status. *)
Record NodeProto := { proto_node : Node; proto_status : ClusterStatus }.

Definition Proto (n : Node) (st : ClusterStatus) : NodeProto :=
  {| proto_node := n; proto_status := st |}.

Record Event := { EventType : WatchEvent; EventNode : NodeProto }.

(** The fields of [meshStore] the callback reads. *)
Record meshStore := {
  HeartbeatPurgeThreshold : Z;   (** s.opts.Mesh.HeartbeatPurgeThreshold *)
  testStore : bool;
  nodeID : string;
  HasWatchers : bool;            (** s.plugins.HasWatchers() *)
}.

(** Answers of the collaborators at the time of the event; [Some e] is a
    returned error. *)
Record Env := {
  IsLeader : bool;
  RemoveServer : string -> bool -> option string;
  PeersDelete : string -> option string;
  RefreshPeers : option string;
  PeersGet : string -> option Node;  (** [None]: lookup error *)
  Emit : Event -> option string;
}.

(** Calls issued and warnings logged (debug and info logging omitted). *)
Inductive Effect :=
| ERemoveServer (id : string) (force : bool)
| EPeersDelete (id : string)
| ERefreshPeers
| EEmit (ev : Event)
| EWarn (msg : string).

#[global] Instance Suffrage_eq_dec : EqDecision Suffrage.
Proof. solve_decision. Defined.
#[global] Instance WatchEvent_eq_dec : EqDecision WatchEvent.
Proof. solve_decision. Defined.
#[global] Instance ClusterStatus_eq_dec : EqDecision ClusterStatus.
Proof. solve_decision. Defined.
#[global] Instance NodeProto_eq_dec : EqDecision NodeProto.
Proof. intros [] []; solve_decision. Defined.
#[global] Instance Event_eq_dec : EqDecision Event.
Proof. intros [] []; solve_decision. Defined.
#[global] Instance Effect_eq_dec : EqDecision Effect.
Proof. solve_decision. Defined.

(** The callback-local [failedHeartBeats] map. *)
Abbreviation Counters := (gmap string Z).

Definition suffrage_status (removed : bool) (sf : Suffrage) : ClusterStatus :=
  if removed then CLUSTER_STATUS_UNKNOWN
  else match sf with
       | Nonvoter => CLUSTER_NON_VOTER
       | _ => CLUSTER_VOTER
       end.

Definition event_type (removed : bool) : WatchEvent :=
  if removed then WATCH_EVENT_NODE_LEAVE else WATCH_EVENT_NODE_JOIN.

Definition warn_opt (r : option string) (msg : string) : list Effect :=
  match r with Some _ => [EWarn msg] | None => [] end.

(** One invocation of the closure returned by [newObserver]. *)
Definition observe (s : meshStore) (env : Env) (failedHeartBeats : Counters)
    (ev : Observation) : Counters * list Effect :=
  match ev with
  | FailedHeartbeatObservation pid =>
      if HeartbeatPurgeThreshold s <=? 0 then (failedHeartBeats, [])
      else
        let fhb := <[pid := default 0 (failedHeartBeats !! pid) + 1]> failedHeartBeats in
        let count := default 0 (fhb !! pid) in
        if (HeartbeatPurgeThreshold s <=? count) && IsLeader env then
          match RemoveServer env pid true with
          | Some _ => (fhb, [ERemoveServer pid true; EWarn "failed to remove peer"])
          | None =>
              let effs := [ERemoveServer pid true; EPeersDelete pid]
                          ++ warn_opt (PeersDelete env pid)
                               "failed to remove peer from database" in
              (delete pid fhb, effs)
          end
        else (fhb, [])
  | ResumedHeartbeatObservation pid =>
      if 0 <? HeartbeatPurgeThreshold s then (delete pid failedHeartBeats, [])
      else (failedHeartBeats, [])
  | PeerObservation peer removed =>
      if testStore s then (failedHeartBeats, [])
      else if String.eqb (ServerID peer) (nodeID s) then (failedHeartBeats, [])
      else
        let effs := ERefreshPeers :: warn_opt (RefreshPeers env) "wireguard refresh peers" in
        if HasWatchers s then
          match PeersGet env (ServerID peer) with
          | None => (failedHeartBeats, effs ++ [EWarn "failed to lookup peer, can't emit event"])
          | Some node =>
              let e := {| EventType := event_type removed;
                          EventNode := Proto node (suffrage_status removed (ServerSuffrage peer)) |} in
              (failedHeartBeats,
               effs ++ EEmit e :: warn_opt (Emit env e) "error sending node join/leave event")
          end
        else (failedHeartBeats, effs)
  | LeaderObservation lid =>
      if HasWatchers s then
        match PeersGet env lid with
        | None => (failedHeartBeats, [EWarn "failed to get leader, may be fresh cluster, can't emit event"])
        | Some node =>
            let e := {| EventType := WATCH_EVENT_LEADER_CHANGE;
                        EventNode := Proto node CLUSTER_LEADER |} in
            (failedHeartBeats, EEmit e :: warn_opt (Emit env e) "error sending leader change event")
        end
      else (failedHeartBeats, [])
  end.

(** The events emitted by a trace. *)
Definition emitted (effs : list Effect) : list Event :=
  omap (fun e => match e with EEmit ev => Some ev | _ => None end) effs.

(** Did the trace issue a [RemoveServer(pid, true)]? *)
Definition purge_issued (pid : string) (effs : list Effect) : bool :=
  bool_decide (ERemoveServer pid true ∈ effs).

End Observer.

(* ------------------------------------------------------------------ *)
(** ** The Join RPC (pkg/services/node/server_join.go) *)

Module Join.
Import Peers.

(** How a handler ends early: the gRPC status codes it returns (messages
    elided), or [GoPanic], a run-time panic, which returns no status and
    unwinds the handler (its deferred calls run; the panic then goes on
    up the goroutine). *)
Inductive Code :=
| InvalidArgument | FailedPrecondition | PermissionDenied | NotFound | Internal
| GoPanic.

#[global] Instance Code_eq_dec : EqDecision Code.
Proof. solve_decision. Defined.

(** A Go [(value, error)] pair. *)
Inductive result (A : Type) := Ok (a : A) | Err (e : string).
Arguments Ok {A} a.
Arguments Err {A} e.

Record JoinRequest := {
  Id : string;
  ReqPublicKey : string;
  ReqPrimaryEndpoint : string;
  ReqEndpoints : list string;
  GrpcPort : Z;
  ReqRaftPort : Z;
  ReqWireguardPort : Z;
  AssignIpv4 : bool;
  PreferRaftIpv6 : bool;
  AsVoter : bool;
}.

(** [peers.CreateOptions] *)
Record CreateOptions := {
  CID : string;
  CPublicKey : string;
  CPrimaryEndpoint : string;
  CEndpoints : list string;
  CNetworkIPv6 : string;
  CGRPCPort : Z;
  CRaftPort : Z;
  CWireguardPort : Z;
}.

#[global] Instance CreateOptions_eq_dec : EqDecision CreateOptions.
Proof. intros [] []; solve_decision. Defined.

Record WireguardPeer := {
  WId : string;
  WPublicKey : string;
  WPrimaryEndpoint : string;
  WEndpoints : list string;
  WAddressIpv4 : string;
  WAddressIpv6 : string;
}.

Record JoinResponse := {
  RespNetworkIpv6 : string;
  RespAddressIpv4 : string;
  RespPeers : list WireguardPeer;
}.

(** The mutable field of [Server]: the cached ULA prefix ("" is the
    invalid zero [netip.Prefix]). *)
Record Server := { ulaPrefix : string }.

Inductive GetResult := Found (n : Node) | ErrNodeNotFound | GetError (e : string).

(** Answers of the collaborators: the raft store, mesh state, the key and
    address parsers, the registry, the IPAM allocator. *)
Record Env := {
  StoreIsLeader : bool;
  GetULAPrefix : result string;
  ParseKey : string -> result string;
  ParseAddr : string -> result string;
  PeersGet : string -> GetResult;
  PeersUpdate : Node -> result Node;
  Random64 : string -> result string;
  PeersCreate : CreateOptions -> result Node;
  Acquire : string -> result string;
  ListPeers : string -> result (list Node);
  AddVoter : string -> string -> option string;
  AddNonVoter : string -> string -> option string;
  PrefixAddr : string -> string;   (** [p.Addr().String()] *)
}.

(** Calls issued to the collaborators. *)
Inductive Call :=
| CGetULAPrefix
| CPeersGet (id : string)
| CPeersUpdate (n : Node)
| CPeersCreate (o : CreateOptions)
| CAcquire (id : string)
| CListPeers (id : string)
| CAddVoter (id addr : string)
| CAddNonVoter (id addr : string)
| CRefreshWireguardPeers.

#[global] Instance Call_eq_dec : EqDecision Call.
Proof. solve_decision. Defined.

(** State (the server), a trace of calls, and an early return with a
    status code. *)
Definition M (A : Type) := Server -> Server * list Call * (Code + A).

#[global] Instance M_ret : MRet M := λ A a s, (s, [], inr a).
#[global] Instance M_bind : MBind M := λ A B f m s,
  match m s with
  | (s1, t1, inl c) => (s1, t1, inl c)
  | (s1, t1, inr a) => let '(s2, t2, r) := f a s1 in (s2, t1 ++ t2, r)
  end.

Definition throw {A} (c : Code) : M A := λ s, (s, [], inl c).
Definition issue (c : Call) : M unit := λ s, (s, [c], inr ()).
Definition get_server : M Server := λ s, (s, [], inr s).
Definition put_server (s' : Server) : M unit := λ _, (s', [], inr ()).

(** [if err != nil { return nil, status.Errorf(c, ...) }] *)
Definition check {A} (r : result A) (c : Code) : M A :=
  match r with Ok a => mret a | Err _ => throw c end.

Fixpoint has_colon (s : string) : bool :=
  match s with
  | EmptyString => false
  | String a s' => bool_decide (a = ":"%char) || has_colon s'
  end.

(** [net.JoinHostPort] *)
Definition JoinHostPort (host port : string) : string :=
  if has_colon host then "[" +:+ host +:+ "]:" +:+ port
  else host +:+ ":" +:+ port.

(** [netip.AddrPortFrom(a, uint16(p)).String()] *)
Definition AddrPortString (a : string) (p : Z) : string :=
  JoinHostPort a (pretty (p mod 65536)).

(** Lines 42-48: lazy resolution of the ULA prefix. *)
Definition resolve_ula (env : Env) : M unit :=
  s ← get_server;
  if String.eqb (ulaPrefix s) "" then
    issue CGetULAPrefix;;
    match GetULAPrefix env with
    | Ok p => put_server {| ulaPrefix := p |}
    | Err _ => put_server {| ulaPrefix := "" |};; throw Internal
    end
  else mret ().

Fixpoint parse_endpoints (env : Env) (l : list string) : M (list string) :=
  match l with
  | [] => mret []
  | e :: l' =>
      a ← check (ParseAddr env e) InvalidArgument;
      rest ← parse_endpoints env l';
      mret (a :: rest)
  end.

(** Lines 50-74: input validation; returns the parsed key, primary
    endpoint ("" when absent) and endpoints. *)
Definition validate (env : Env) (req : JoinRequest) : M (string * string * list string) :=
  if String.eqb (Id req) "" then throw InvalidArgument
  else
    pk ← check (ParseKey env (ReqPublicKey req)) InvalidArgument;
    pe ← (if String.eqb (ReqPrimaryEndpoint req) "" then mret ""
          else check (ParseAddr env (ReqPrimaryEndpoint req)) InvalidArgument);
    eps ← parse_endpoints env (ReqEndpoints req);
    mret (pk, pe, eps).

(** Field assignments [peer.F = v] on the record returned by [peers.Get]. *)
Definition set_PublicKey (n : Node) (v : string) : Node :=
  {| ID := ID n; PublicKey := v; PrimaryEndpoint := PrimaryEndpoint n;
     Endpoints := Endpoints n; NetworkIPv6 := NetworkIPv6 n; PrivateIPv4 := PrivateIPv4 n;
     GRPCPort := GRPCPort n; RaftPort := RaftPort n; WireguardPort := WireguardPort n |}.
Definition set_GRPCPort (n : Node) (v : Z) : Node :=
  {| ID := ID n; PublicKey := PublicKey n; PrimaryEndpoint := PrimaryEndpoint n;
     Endpoints := Endpoints n; NetworkIPv6 := NetworkIPv6 n; PrivateIPv4 := PrivateIPv4 n;
     GRPCPort := v; RaftPort := RaftPort n; WireguardPort := WireguardPort n |}.
Definition set_RaftPort (n : Node) (v : Z) : Node :=
  {| ID := ID n; PublicKey := PublicKey n; PrimaryEndpoint := PrimaryEndpoint n;
     Endpoints := Endpoints n; NetworkIPv6 := NetworkIPv6 n; PrivateIPv4 := PrivateIPv4 n;
     GRPCPort := GRPCPort n; RaftPort := v; WireguardPort := WireguardPort n |}.
Definition set_WireguardPort (n : Node) (v : Z) : Node :=
  {| ID := ID n; PublicKey := PublicKey n; PrimaryEndpoint := PrimaryEndpoint n;
     Endpoints := Endpoints n; NetworkIPv6 := NetworkIPv6 n; PrivateIPv4 := PrivateIPv4 n;
     GRPCPort := GRPCPort n; RaftPort := RaftPort n; WireguardPort := v |}.
Definition set_PrimaryEndpoint (n : Node) (v : string) : Node :=
  {| ID := ID n; PublicKey := PublicKey n; PrimaryEndpoint := v;
     Endpoints := Endpoints n; NetworkIPv6 := NetworkIPv6 n; PrivateIPv4 := PrivateIPv4 n;
     GRPCPort := GRPCPort n; RaftPort := RaftPort n; WireguardPort := WireguardPort n |}.
Definition set_Endpoints (n : Node) (v : list string) : Node :=
  {| ID := ID n; PublicKey := PublicKey n; PrimaryEndpoint := PrimaryEndpoint n;
     Endpoints := v; NetworkIPv6 := NetworkIPv6 n; PrivateIPv4 := PrivateIPv4 n;
     GRPCPort := GRPCPort n; RaftPort := RaftPort n; WireguardPort := WireguardPort n |}.

(** [cmp.Equal(x, y)] on two [[]netip.Addr] ([None]: it panics). go-cmp
    reports a nil and a non-nil slice unequal, and compares the elements
    of two non-nil slices one pair at a time; a [netip.Addr] has no
    [Equal] method and only unexported fields, which go-cmp refuses
    ("cannot handle unexported field") by panicking. So the comparison
    panics as soon as both slices hold an element. An empty slice here
    may be nil or not: two empty ones compare equal or not, and the
    assignment that follows an inequality replaces one empty list by
    another, the same list in this model. *)
Definition cmp_Equal_Addrs (x y : list string) : option bool :=
  match x, y with
  | [], [] => Some true
  | [], _ :: _ | _ :: _, [] => Some false
  | _ :: _, _ :: _ => None
  end.

(** Lines 87-104: the field-wise comparison of the stored record with the
    request; [None] when [cmp.Equal] on the endpoints panics. *)
Definition apply_updates (peer : Node) (req : JoinRequest)
    (publicKey primaryEndpoint : string) (endpoints : list string) : option Node :=
  let peer := if negb (String.eqb (PublicKey peer) publicKey)
              then set_PublicKey peer publicKey else peer in
  let peer := if negb (GRPCPort peer =? GrpcPort req)
              then set_GRPCPort peer (GrpcPort req) else peer in
  let peer := if negb (RaftPort peer =? ReqRaftPort req)
              then set_RaftPort peer (ReqRaftPort req) else peer in
  let peer := if negb (WireguardPort peer =? ReqWireguardPort req)
              then set_WireguardPort peer (ReqWireguardPort req) else peer in
  let peer := if negb (String.eqb primaryEndpoint "")
                 && negb (String.eqb primaryEndpoint (PrimaryEndpoint peer))
              then set_PrimaryEndpoint peer primaryEndpoint else peer in
  match cmp_Equal_Addrs (Endpoints peer) endpoints with
  | None => None
  | Some eq => Some (if negb eq then set_Endpoints peer endpoints else peer)
  end.

(** Lines 78-129: update an existing record or create a new one. *)
Definition upsert (env : Env) (req : JoinRequest)
    (publicKey primaryEndpoint : string) (endpoints : list string) : M Node :=
  issue (CPeersGet (Id req));;
  match PeersGet env (Id req) with
  | GetError _ => throw Internal
  | Found peer =>
      match apply_updates peer req publicKey primaryEndpoint endpoints with
      | None => throw GoPanic
      | Some peer =>
          issue (CPeersUpdate peer);;
          check (PeersUpdate env peer) Internal
      end
  | ErrNodeNotFound =>
      s ← get_server;
      networkIPv6 ← check (Random64 env (ulaPrefix s)) Internal;
      let opts := {| CID := Id req; CPublicKey := publicKey;
                     CPrimaryEndpoint := primaryEndpoint; CEndpoints := endpoints;
                     CNetworkIPv6 := networkIPv6; CGRPCPort := GrpcPort req;
                     CRaftPort := ReqRaftPort req; CWireguardPort := ReqWireguardPort req |} in
      issue (CPeersCreate opts);;
      check (PeersCreate env opts) Internal
  end.

(** Lines 135-144: the IPv4 lease ("" is the zero prefix when none). *)
Definition assign_ipv4 (env : Env) (req : JoinRequest) : M string :=
  if AssignIpv4 req then
    issue (CAcquire (Id req));;
    check (Acquire env (Id req)) Internal
  else mret "".

(** Lines 151-161: the raft transport address. *)
Definition raftAddress (env : Env) (req : JoinRequest) (lease : string) (peer : Node) : string :=
  if AssignIpv4 req && negb (PreferRaftIpv6 req) then
    JoinHostPort (PrefixAddr env lease) (pretty (RaftPort peer))
  else
    JoinHostPort (PrefixAddr env (NetworkIPv6 peer)) (pretty (RaftPort peer)).

(** Lines 162-172: add the node to the raft configuration. *)
Definition add_to_cluster (env : Env) (req : JoinRequest) (raftAddr : string) : M unit :=
  if AsVoter req then
    issue (CAddVoter (Id req) raftAddr);;
    match AddVoter env (Id req) raftAddr with Some _ => throw Internal | None => mret () end
  else
    issue (CAddNonVoter (Id req) raftAddr);;
    match AddNonVoter env (Id req) raftAddr with Some _ => throw Internal | None => mret () end.

(** Lines 181-220: rendering of one peer of the response. *)
Definition render (peer : Node) : WireguardPeer :=
  {| WId := ID peer;
     WPublicKey := PublicKey peer;
     WPrimaryEndpoint := if String.eqb (PrimaryEndpoint peer) "" then ""
                         else AddrPortString (PrimaryEndpoint peer) (WireguardPort peer);
     WEndpoints := map (λ e, AddrPortString e (WireguardPort peer)) (Endpoints peer);
     WAddressIpv4 := PrivateIPv4 peer;
     WAddressIpv6 := NetworkIPv6 peer |}.

Definition Join (env : Env) (req : JoinRequest) : M JoinResponse :=
  (if StoreIsLeader env then mret () else throw FailedPrecondition);;
  resolve_ula env;;
  '(publicKey, primaryEndpoint, endpoints) ← validate env req;
  peer ← upsert env req publicKey primaryEndpoint endpoints;
  lease ← assign_ipv4 env req;
  peers ← (issue (CListPeers (Id req));; check (ListPeers env (Id req)) Internal);
  add_to_cluster env req (raftAddress env req lease peer);;
  (* the deferred RefreshWireguardPeers; its error is only logged *)
  issue CRefreshWireguardPeers;;
  mret {| RespNetworkIpv6 := NetworkIPv6 peer;
          RespAddressIpv4 := if AssignIpv4 req then lease else "";
          RespPeers := map render peers |}.

(** The trace and the outcome of a call. *)
Definition trace_of {A} (r : Server * list Call * (Code + A)) : list Call := r.1.2.
Definition outcome_of {A} (r : Server * list Call * (Code + A)) : Code + A := r.2.

End Join.

(* ------------------------------------------------------------------ *)
(** ** The DeleteNetworkACL admin RPC (pkg/services/admin) *)

Module Admin.
Import Join.

Record NetworkACL := { Name : string }.

(** Answers of the collaborators: the raft node, the RBAC evaluator
    ([(ok, err)] of [Evaluate]) and the networking store. *)
Record Env := {
  RaftIsLeader : bool;
  Evaluate : string -> bool * option string;
  NetworkingDelete : string -> option string;
}.

Inductive Effect :=
| EEvaluate (name : string)
| ENetworkingDelete (name : string)
| ELogError (msg : string).

#[global] Instance Effect_eq_dec : EqDecision Effect.
Proof. solve_decision. Defined.

(** [DeleteNetworkACL], given [networking.IsSystemNetworkACL]. *)
Definition DeleteNetworkACL (IsSystemNetworkACL : string -> bool) (env : Env)
    (acl : NetworkACL) : list Effect * (Code + unit) :=
  if negb (RaftIsLeader env) then ([], inl FailedPrecondition)
  else if String.eqb (Name acl) "" then ([], inl InvalidArgument)
  else
    let '(ok, err) := Evaluate env (Name acl) in
    if negb ok then
      ([EEvaluate (Name acl)]
         ++ (match err with
             | Some _ => [ELogError "failed to evaluate delete network acl action"]
             | None => []
             end),
       inl PermissionDenied)
    else if IsSystemNetworkACL (Name acl) then ([EEvaluate (Name acl)], inl InvalidArgument)
    else
      match NetworkingDelete env (Name acl) with
      | Some _ => ([EEvaluate (Name acl); ENetworkingDelete (Name acl)], inl Internal)
      | None => ([EEvaluate (Name acl); ENetworkingDelete (Name acl)], inr ())
      end.

(** Modelled from the spec: [networking.IsSystemNetworkACL] is not among
    the sources; the spec names [bootstrap-nodes] as a system-reserved ACL
    name. *)
Definition BootstrapNodesNetworkACLName : string := "bootstrap-nodes".
Definition IsSystemNetworkACL (name : string) : bool :=
  String.eqb name BootstrapNodesNetworkACLName.

(** Does a trace touch the networking storage? *)
Definition touches_storage (effs : list Effect) : bool :=
  existsb (λ e, match e with ENetworkingDelete _ => true | _ => false end) effs.

End Admin.

(* ------------------------------------------------------------------ *)
(** ** Go channels, as the campfire code uses them *)

Module Chan.

(** A channel value: [None] is the nil channel. *)
Definition chan := option positive.

Record ChanState := { capacity : nat; buffer : list string; closed : bool }.

Record Heap := { chans : gmap positive ChanState; next : positive }.

Definition empty_heap : Heap := {| chans := ∅; next := 1 |}.

(** [make(chan T, n)] *)
Definition make (h : Heap) (n : nat) : Heap * chan :=
  ({| chans := <[next h := {| capacity := n; buffer := []; closed := false |}]> (chans h);
      next := Pos.succ (next h) |}, Some (next h)).

Inductive Outcome :=
| Ok (h : Heap)
| Panic (msg : string)
| BlocksForever     (** no other goroutine can ever unblock it *)
| WouldBlock.       (** waits for another goroutine *)

(** [close(c)] *)
Definition close (h : Heap) (c : chan) : Outcome :=
  match c with
  | None => Panic "close of nil channel"
  | Some p =>
      match chans h !! p with
      | None => Panic "close of nil channel"
      | Some st =>
          if closed st then Panic "close of closed channel"
          else Ok {| chans := <[p := {| capacity := capacity st; buffer := buffer st;
                                        closed := true |}]> (chans h);
                     next := next h |}
      end
  end.

(** [c <- v] *)
Definition send (h : Heap) (c : chan) (v : string) : Outcome :=
  match c with
  | None => BlocksForever
  | Some p =>
      match chans h !! p with
      | None => BlocksForever
      | Some st =>
          if closed st then Panic "send on closed channel"
          else if bool_decide (length (buffer st) < capacity st)%nat then
            Ok {| chans := <[p := {| capacity := capacity st; buffer := buffer st ++ [v];
                                     closed := false |}]> (chans h);
                  next := next h |}
          else WouldBlock
      end
  end.

Inductive RecvOutcome :=
| Received (v : string) (h : Heap)
| ReceivedClosed
| RecvWouldBlock
| RecvBlocksForever.

(** [<-c] *)
Definition recv (h : Heap) (c : chan) : RecvOutcome :=
  match c with
  | None => RecvBlocksForever
  | Some p =>
      match chans h !! p with
      | None => RecvBlocksForever
      | Some st =>
          match buffer st with
          | v :: rest =>
              Received v {| chans := <[p := {| capacity := capacity st; buffer := rest;
                                               closed := closed st |}]> (chans h);
                            next := next h |}
          | [] => if closed st then ReceivedClosed else RecvWouldBlock
          end
      end
  end.

End Chan.

(* ------------------------------------------------------------------ *)
(** ** The campfire session (pkg/campfire/campfire.go) *)

Module Campfire.
Import Chan.

Record Location := { TURNServer : string; Secret : string }.

Record Options := { PSK : string; TURNServers : list string }.

(** Answers of [FindCampFire] and of the WebRTC peer connection; for the
    latter, [Some e] is a returned error. *)
Record Env := {
  FindCampFire : string -> list string -> Join.result Location;
  NewPeerConnection : list string -> option string;
  CreateDataChannel : string -> option string;
  CreateOffer : option string;
  SetLocalDescription : option string;
  Unmarshal : option string;
  Marshal : option string;
  SetRemoteDescription : option string;
}.

(** Calls on the WebRTC API. *)
Inductive PCCall :=
| CNewPeerConnection (iceServers : list string)
| CCreateDataChannel (label : string)
| CCreateOffer
| CSetLocalDescription
| CUnmarshal
| CMarshal
| CSetRemoteDescription
| CPCClose.

(** The [CampFire] struct; [ReadWriteCloser] is [None] until the data
    channel is detached. *)
Record CampFire := {
  ReadWriteCloser : option string;
  errc : chan;
  readyc : chan;
  closec : chan;
}.

(** A sequence of [if err != nil { defer cf.PeerConnection.Close(); return
    nil, fmt.Errorf(msg + ": %w", err) }] steps. *)
Fixpoint run_steps (steps : list (PCCall * option string * string))
    : list PCCall * option string :=
  match steps with
  | [] => ([], None)
  | (c, r, msg) :: rest =>
      match r with
      | Some e => ([c; CPCClose], Some (msg +:+ ": " +:+ e))
      | None => let '(t, r') := run_steps rest in (c :: t, r')
      end
  end.

(** [New]: the heap of channels after the call, the WebRTC calls, and the
    error or the camp fire. *)
Definition New (env : Env) (h : Heap) (opts : Options)
    : Heap * list PCCall * (string + CampFire) :=
  match FindCampFire env (PSK opts) (TURNServers opts) with
  | Join.Err e => (h, [], inl ("find camp fire: " +:+ e))
  | Join.Ok loc =>
      let turn := if String.prefix "stun:" (TURNServer loc) then TURNServer loc
                  else "stun:" +:+ TURNServer loc in
      match NewPeerConnection env [turn] with
      | Some e => (h, [CNewPeerConnection [turn]], inl ("new peer connection: " +:+ e))
      | None =>
          let '(h1, errc) := make h 1 in
          let '(h2, closec) := make h1 0 in
          let cf := {| ReadWriteCloser := None; errc := errc; closec := closec;
                       readyc := None |} in
          let '(t, r) := run_steps
              [(CCreateDataChannel (Secret loc), CreateDataChannel env (Secret loc),
                "create data channel");
               (CCreateOffer, CreateOffer env, "create offer");
               (CSetLocalDescription, SetLocalDescription env, "set local description");
               (CUnmarshal, Unmarshal env, "unmarshal local description");
               (CMarshal, Marshal env, "marshal session description");
               (CSetRemoteDescription, SetRemoteDescription env, "set remote description")] in
          (h2, CNewPeerConnection [turn] :: t,
           match r with Some e => inl e | None => inr cf end)
      end
  end.

(** The data channel's [OnOpen] handler, given the result of [dc.Detach()]. *)
Definition OnOpen (detach : Join.result string) (h : Heap) (cf : CampFire)
    : Outcome * CampFire :=
  match detach with
  | Join.Err e => (send h (errc cf) e, cf)
  | Join.Ok rw =>
      let cf := {| ReadWriteCloser := Some rw; errc := errc cf; readyc := readyc cf;
                   closec := closec cf |} in
      match close h (errc cf) with
      | Ok h1 => (close h1 (readyc cf), cf)
      | o => (o, cf)
      end
  end.

(** [Close], given the error [cf.PeerConnection.Close()] returns: the heap,
    the WebRTC calls and the returned error. *)
Definition Close (pcCloseErr : option string) (h : Heap) (cf : CampFire)
    : Heap * list PCCall * option string :=
  (h, [CPCClose], None).

Definition Errors (cf : CampFire) : chan := errc cf.
Definition Ready (cf : CampFire) : chan := readyc cf.

End Campfire.

(* ================================================================== *)
Module GoStrings.

(** [strings.Split(s, sep)] for a one-byte separator: the pieces between
    successive occurrences of [sep]; [Split("", sep)] is [[""]]. *)
Fixpoint Split (s : string) (sep : ascii) : list string :=
  match s with
  | EmptyString => [""]
  | String a s' =>
      let rest := Split s' sep in
      if bool_decide (a = sep) then "" :: rest
      else match rest with
           | h :: t => String a h :: t
           | [] => [String a ""]
           end
  end.

(** [strings.Join(elems, sep)] *)
Fixpoint Join (elems : list string) (sep : string) : string :=
  match elems with
  | [] => ""
  | [e] => e
  | e :: rest => e +:+ sep +:+ Join rest sep
  end.

(** [strings.HasPrefix(s, prefix)] *)
Definition HasPrefix (s prefix : string) : bool := String.prefix prefix s.

(** [strings.Contains(s, substr)] for a one-byte [substr]. *)
Fixpoint ContainsByte (s : string) (c : ascii) : bool :=
  match s with
  | EmptyString => false
  | String a s' => bool_decide (a = c) || ContainsByte s' c
  end.

(** Occurrences of a byte. *)
Fixpoint CountByte (s : string) (c : ascii) : nat :=
  match s with
  | EmptyString => 0
  | String a s' => (if bool_decide (a = c) then 1 else 0) + CountByte s' c
  end.

End GoStrings.

Module MeshDNS.
Import GoStrings.

Definition MeshDNSForwardersEnvVar : string := "SERVICES_MESH_DNS_FORWARDERS".

(** [MeshDNSOptions]; [RequestTimeout] in nanoseconds, a nil slice as [[]]. *)
Record MeshDNSOptions := {
  Enabled : bool;
  ListenUDP : string;
  ListenTCP : string;
  ReusePort : Z;
  EnableCompression : bool;
  RequestTimeout : Z;
  Forwarders : list string;
  DisableForwarding : bool;
  CacheSize : Z;
}.

#[global] Instance MeshDNSOptions_eq_dec : EqDecision MeshDNSOptions.
Proof. intros [] []; solve_decision. Defined.

Definition Second : Z := 1000000000.

(** [NewMeshDNSOptions] *)
Definition NewMeshDNSOptions : MeshDNSOptions :=
  {| Enabled := false; ListenUDP := ":5353"; ListenTCP := ":5353"; ReusePort := 0;
     EnableCompression := true; RequestTimeout := Second * 5; Forwarders := [];
     DisableForwarding := false; CacheSize := 0 |}.

(** [o.Forwarders = v] *)
Definition set_Forwarders (o : MeshDNSOptions) (v : list string) : MeshDNSOptions :=
  {| Enabled := Enabled o; ListenUDP := ListenUDP o; ListenTCP := ListenTCP o;
     ReusePort := ReusePort o; EnableCompression := EnableCompression o;
     RequestTimeout := RequestTimeout o; Forwarders := v;
     DisableForwarding := DisableForwarding o; CacheSize := CacheSize o |}.

(** [MeshDNSOptions.Validate]: the receiver ([None] is nil) after the
    call, and the returned error; [getenv] is [os.Getenv]. *)
Definition Validate (getenv : string -> string) (o : option MeshDNSOptions)
    : option MeshDNSOptions * option string :=
  match o with
  | None => (None, None)
  | Some o =>
      if Enabled o then
        if String.eqb (ListenTCP o) "" && String.eqb (ListenUDP o) "" then
          (Some o, Some "must specify a TCP or UDP address for mesh DNS")
        else if bool_decide (length (Forwarders o) = 0%nat) && negb (DisableForwarding o) then
          let envval := getenv MeshDNSForwardersEnvVar in
          if negb (String.eqb envval "") then
            (Some (set_Forwarders o (Split envval ","%char)), None)
          else (Some o, None)
        else (Some o, None)
      else (Some o, None)
  end.

(** The function bound to the [services.mesh-dns.forwarders] flag
    (lines 94-97), applied to the flag's value. *)
Definition SetForwardersFlag (o : MeshDNSOptions) (s : string) : MeshDNSOptions :=
  set_Forwarders o (Split s ","%char).

(** A [flag.FlagSet] (Go 1.21): its name, the names of its defined flags
    ([formal]; the values the flags are bound to are not represented) and
    [undef], the position at which each flag was set before being
    defined. *)
Record FlagSet := { fs_name : string; formal : list string; undef : gmap string string }.

Inductive FlagResult := FlagsOk (fs : FlagSet) | FlagPanic (msg : string).

(** [FlagSet.Var], through which every [fs.XxxVar] and [fs.Func] call
    goes: its checks on the name, the check against [formal], the check
    against [undef] (a missing key reads as ""), then the definition
    (panic messages without Go's [%q] quoting). *)
Definition define (fs : FlagSet) (name : string) : FlagResult :=
  if HasPrefix name "-" then FlagPanic ("flag " +:+ name +:+ " begins with -")
  else if ContainsByte name "="%char then FlagPanic ("flag " +:+ name +:+ " contains =")
  else if bool_decide (name ∈ formal fs) then
    FlagPanic (if String.eqb (fs_name fs) "" then "flag redefined: " +:+ name
               else fs_name fs +:+ " flag redefined: " +:+ name)
  else
    let pos := default "" (undef fs !! name) in
    if negb (String.eqb pos "") then
      FlagPanic ("flag " +:+ name +:+ " set at " +:+ pos +:+ " before being defined")
    else FlagsOk {| fs_name := fs_name fs; formal := formal fs ++ [name]; undef := undef fs |}.

Fixpoint define_all (fs : FlagSet) (names : list string) : FlagResult :=
  match names with
  | [] => FlagsOk fs
  | n :: ns => match define fs n with FlagsOk fs' => define_all fs' ns | p => p end
  end.

(** The flags [BindFlags] defines, in order, after the prefix. *)
Definition MeshDNSFlagNames : list string :=
  ["services.mesh-dns.enabled"; "services.mesh-dns.listen-udp";
   "services.mesh-dns.listen-tcp"; "services.mesh-dns.reuse-port";
   "services.mesh-dns.enable-compression"; "services.mesh-dns.request-timeout";
   "services.mesh-dns.forwarders"; "services.mesh-dns.disable-forwarding";
   "services.mesh-dns.cache-size"].

(** Lines 78-81: [p]. *)
Definition flag_prefix (prefix : list string) : string :=
  if bool_decide (0 < length prefix)%nat then Join prefix "." +:+ "." else "".

(** [MeshDNSOptions.BindFlags(fs, prefix...)] *)
Definition BindFlags (fs : FlagSet) (prefix : list string) : FlagResult :=
  define_all fs (map (λ n, flag_prefix prefix +:+ n) MeshDNSFlagNames).

End MeshDNS.

Module ObserverRun.
Import Peers Observer.

(** Successive invocations of the closure [newObserver] returns: they
    share the [failedHeartBeats] map the closure captured; each
    observation comes with the collaborators' answers at its time. *)
Fixpoint observe_all (s : meshStore) (failedHeartBeats : Counters)
    (evs : list (Env * Observation)) : Counters * list Effect :=
  match evs with
  | [] => (failedHeartBeats, [])
  | (env, ev) :: rest =>
      let '(fhb1, e1) := observe s env failedHeartBeats ev in
      let '(fhb2, e2) := observe_all s fhb1 rest in
      (fhb2, e1 ++ e2)
  end.

End ObserverRun.

(** * Properties *)

Module ObserverFacts.
Import Peers Observer.

Definition node_b : Node :=
  {| ID := "b"; PublicKey := "kb"; PrimaryEndpoint := ""; Endpoints := [];
     NetworkIPv6 := "fd00::b/128"; PrivateIPv4 := ""; GRPCPort := 8443;
     RaftPort := 9443; WireguardPort := 51820 |}.

Definition store3 : meshStore :=
  {| HeartbeatPurgeThreshold := 3; testStore := false; nodeID := "a"; HasWatchers := true |}.

(** A leader whose collaborators all succeed, except [peers.Delete]
    when [delete_fails]. *)
Definition leader_env (leader delete_fails : bool) : Env :=
  {| IsLeader := leader;
     RemoveServer := λ _ _, None;
     PeersDelete := λ _, if delete_fails then Some "storage unavailable" else None;
     RefreshPeers := None;
     PeersGet := λ id, if String.eqb id "b" then Some node_b else None;
     Emit := λ _, None |}.

Example observe_third_failure_purges :
  observe store3 (leader_env true false) {[ "b" := 2 ]} (FailedHeartbeatObservation "b")
  = (∅, [ERemoveServer "b" true; EPeersDelete "b"]).
Proof. reflexivity. Qed.

Example observe_follower_only_counts :
  observe store3 (leader_env false false) {[ "b" := 7 ]} (FailedHeartbeatObservation "b")
  = ({[ "b" := 8 ]}, []).
Proof. reflexivity. Qed.

(** C1: with a positive threshold, a FailedHeartbeat event issues
    [RemoveServer(pid, force=true)] exactly when the incremented counter has
    reached the threshold and the node is the leader; [peers.Delete(pid)]
    follows when the removal succeeds; a follower issues nothing and only
    counts; with a threshold [<= 0] the event changes nothing. *)
Theorem heartbeat_purge_iff_threshold_and_leader :
  forall (s : meshStore) (env : Env) (fhb : Counters) (pid : string),
    let r := observe s env fhb (FailedHeartbeatObservation pid) in
    let count := default 0 (fhb !! pid) + 1 in
    (HeartbeatPurgeThreshold s <= 0 -> r = (fhb, [])) /\
    (0 < HeartbeatPurgeThreshold s ->
       (purge_issued pid r.2 = true <->
          HeartbeatPurgeThreshold s <= count /\ IsLeader env = true) /\
       (purge_issued pid r.2 = true ->
          head r.2 = Some (ERemoveServer pid true) /\
          (RemoveServer env pid true = None ->
             take 2 r.2 = [ERemoveServer pid true; EPeersDelete pid])) /\
       (IsLeader env = false -> r = (<[pid := count]> fhb, []))).
Proof.
  intros s env fhb pid r count. subst r count. unfold observe.
  destruct (Z.leb_spec (HeartbeatPurgeThreshold s) 0) as [Hle | Hgt].
  - split; [reflexivity | intros; lia].
  - split; [intros; lia | intros _].
    cbv zeta. rewrite lookup_insert_eq. simpl.
    destruct (Z.leb_spec (HeartbeatPurgeThreshold s) (default 0 (fhb !! pid) + 1))
      as [Hreach | Hnot];
      destruct (IsLeader env) eqn:Hl; simpl.
    + destruct (RemoveServer env pid true) eqn:Hr; simpl.
      * unfold purge_issued. rewrite bool_decide_eq_true_2 by set_solver.
        split; [tauto | split; [split; [reflexivity | discriminate] | discriminate]].
      * unfold purge_issued. rewrite bool_decide_eq_true_2 by set_solver.
        split; [tauto | split; [split; reflexivity | discriminate]].
    + unfold purge_issued. rewrite bool_decide_eq_false_2 by set_solver.
      split; [split; [discriminate | intros [_ ?]; discriminate] |
              split; [discriminate | reflexivity]].
    + unfold purge_issued. rewrite bool_decide_eq_false_2 by set_solver.
      split; [split; [discriminate | lia] | split; [discriminate | discriminate]].
    + unfold purge_issued. rewrite bool_decide_eq_false_2 by set_solver.
      split; [split; [discriminate | lia] | split; [discriminate | reflexivity]].
Qed.

(** C2 (code defect): at threshold 3, on the leader, with a counter at 2,
    a third failed heartbeat whose [RemoveServer] succeeds but whose
    [peers.Delete] fails logs the failure and then still clears the
    counter (unlike the [RemoveServer] failure path, which returns before
    the clear); the next failed heartbeat counts from 1 and issues no
    retry. *)
Theorem heartbeat_delete_failure_clears_counter :
  let env := leader_env true true in
  let r1 := observe store3 env {[ "b" := 2 ]} (FailedHeartbeatObservation "b") in
  r1.2 = [ERemoveServer "b" true; EPeersDelete "b";
          EWarn "failed to remove peer from database"] /\
  r1.1 !! "b" = None /\
  observe store3 env r1.1 (FailedHeartbeatObservation "b") = ({[ "b" := 1 ]}, []).
Proof. vm_compute. repeat split. Qed.

(** The event a PeerChange observation should carry, per the observer. *)
Definition expected_peer_event (peer : Server) (removed : bool) (node : Node) : Event :=
  {| EventType := if removed then WATCH_EVENT_NODE_LEAVE else WATCH_EVENT_NODE_JOIN;
     EventNode := Proto node
       (if removed then CLUSTER_STATUS_UNKNOWN
        else match ServerSuffrage peer with
             | Nonvoter => CLUSTER_NON_VOTER
             | _ => CLUSTER_VOTER
             end) |}.

(** C7: for a PeerChange observation about another node, with watchers
    registered and the node record found, the only event emitted is
    NODE_LEAVE with status unknown when [removed], and otherwise NODE_JOIN
    with status non-voter for a non-voter and voter for any other suffrage
    (nothing is emitted on a test store). *)
Theorem peer_change_event_status :
  forall (s : meshStore) (env : Env) (fhb : Counters) (peer : Server)
         (removed : bool) (node : Node),
    ServerID peer <> nodeID s ->
    HasWatchers s = true ->
    PeersGet env (ServerID peer) = Some node ->
    emitted (observe s env fhb (PeerObservation peer removed)).2
    = if testStore s then [] else [expected_peer_event peer removed node].
Proof.
  intros s env fhb peer removed node Hself Hw Hget.
  unfold observe. destruct (testStore s); [reflexivity |].
  apply String.eqb_neq in Hself. rewrite Hself, Hw, Hget. simpl.
  unfold emitted, expected_peer_event, warn_opt. rewrite omap_app.
  destruct removed; destruct (ServerSuffrage peer); destruct (RefreshPeers env);
    simpl; destruct (Emit env _); reflexivity.
Qed.

Lemma peer_change_event_status_witness :
  "b" <> "a" /\ true = true /\ Some node_b = Some node_b /\
  emitted (observe store3 (leader_env true false) ∅
             (PeerObservation {| ServerID := "b"; ServerSuffrage := Nonvoter |} false)).2
  = [expected_peer_event {| ServerID := "b"; ServerSuffrage := Nonvoter |} false node_b].
Proof.
  split; [discriminate | split; [reflexivity | split; [reflexivity |]]].
  apply (peer_change_event_status store3 (leader_env true false) ∅
           {| ServerID := "b"; ServerSuffrage := Nonvoter |} false node_b);
    [discriminate | reflexivity | reflexivity].
Defined.

End ObserverFacts.

Module JoinFacts.
Import Peers Join.

(** A concrete registry holding node [b]; the request [join_b] repeats
    exactly what is stored. *)
Definition stored_b : Node :=
  {| ID := "b"; PublicKey := "kb"; PrimaryEndpoint := "203.0.113.7"; Endpoints := [];
     NetworkIPv6 := "fd00::b/128"; PrivateIPv4 := ""; GRPCPort := 8443;
     RaftPort := 9443; WireguardPort := 51820 |}.

Definition join_b (assign4 prefer6 : bool) : JoinRequest :=
  {| Id := "b"; ReqPublicKey := "kb"; ReqPrimaryEndpoint := "203.0.113.7";
     ReqEndpoints := []; GrpcPort := 8443; ReqRaftPort := 9443;
     ReqWireguardPort := 51820; AssignIpv4 := assign4; PreferRaftIpv6 := prefer6;
     AsVoter := true |}.

Definition env_b (ula : result string) : Env :=
  {| StoreIsLeader := true;
     GetULAPrefix := ula;
     ParseKey := λ k, if String.eqb k "" then Err "empty key" else Ok k;
     ParseAddr := λ a, if String.eqb a "" then Err "empty address" else Ok a;
     PeersGet := λ id, if String.eqb id "b" then Found stored_b else ErrNodeNotFound;
     PeersUpdate := λ n, Ok n;
     Random64 := λ p, Ok "fd00::c/128";
     PeersCreate := λ o, Err "unused";
     Acquire := λ id, Ok "10.0.0.2/32";
     ListPeers := λ id, Ok [];
     AddVoter := λ _ _, None;
     AddNonVoter := λ _ _, None;
     PrefixAddr := λ p, if String.eqb p "10.0.0.2/32" then "10.0.0.2"
                        else if String.eqb p "fd00::b/128" then "fd00::b" else p |}.

Definition server0 : Server := {| ulaPrefix := "" |}.

Example join_b_v4_address :
  trace_of (Join (env_b (Ok "fd00::/48")) (join_b true false) server0)
  = [CGetULAPrefix; CPeersGet "b"; CPeersUpdate stored_b; CAcquire "b";
     CListPeers "b"; CAddVoter "b" "10.0.0.2:9443"; CRefreshWireguardPeers].
Proof. reflexivity. Qed.

Example join_b_v6_address :
  trace_of (Join (env_b (Ok "fd00::/48")) (join_b true true) server0)
  = [CGetULAPrefix; CPeersGet "b"; CPeersUpdate stored_b; CAcquire "b";
     CListPeers "b"; CAddVoter "b" "[fd00::b]:9443"; CRefreshWireguardPeers].
Proof. reflexivity. Qed.

(** ** Trace reasoning for the Join monad *)

Lemma bind_inv {A B} (m : M A) (f : A -> M B) s s' t r :
  (m ≫= f) s = (s', t, r) ->
  (exists c, m s = (s', t, inl c) /\ r = inl c) \/
  (exists s1 t1 a t2, m s = (s1, t1, inr a) /\ f a s1 = (s', t2, r) /\ t = t1 ++ t2).
Proof.
  unfold mbind, M_bind. destruct (m s) as [[s1 t1] [c|a]]; intros H.
  - left. inversion H; subst. eauto.
  - right. destruct (f a s1) as [[s2 t2] r2] eqn:E. inversion H; subst. eauto 10.
Qed.

(** The raft membership call a trace entry makes, if any. *)
Definition add_args (c : Call) : option (string * string) :=
  match c with
  | CAddVoter id a | CAddNonVoter id a => Some (id, a)
  | _ => None
  end.

Definition no_add (t : list Call) : Prop := Forall (λ c, add_args c = None) t.

Lemma no_add_app t1 t2 : no_add t1 -> no_add t2 -> no_add (t1 ++ t2).
Proof. intros. by apply Forall_app. Qed.

Lemma no_add_not_in t c p : no_add t -> add_args c = Some p -> c ∉ t.
Proof.
  intros Hn Hc Hin. unfold no_add in Hn. rewrite Forall_forall in Hn.
  specialize (Hn c Hin). congruence.
Qed.

(** Skip over a phase that makes no raft membership call. *)
Lemma bind_skip {A B} (m : M A) (f : A -> M B) s s' t r c p :
  (forall s0, no_add (m s0).1.2) -> add_args c = Some p ->
  (m ≫= f) s = (s', t, r) -> c ∈ t ->
  exists s1 t1 a t2, m s = (s1, t1, inr a) /\ f a s1 = (s', t2, r) /\ c ∈ t2 /\
                     t = t1 ++ t2.
Proof.
  intros Hm Hc H Hin. apply bind_inv in H.
  destruct H as [(c' & Hms & ->) | (s1 & t1 & a & t2 & Hms & Hf & ->)].
  - specialize (Hm s). rewrite Hms in Hm. exfalso. by eapply no_add_not_in.
  - exists s1, t1, a, t2. split; [done | split; [done | split; [| done]]].
    apply elem_of_app in Hin as [Hin | Hin]; [| done].
    specialize (Hm s). rewrite Hms in Hm. exfalso. by eapply no_add_not_in.
Qed.

Ltac unfold_M :=
  unfold mbind, M_bind, mret, M_ret, throw, issue, get_server, put_server, check.

(** Split on the innermost stuck [match] until the term computes. *)
Ltac split_innermost :=
  repeat (simpl; match goal with
    | |- context [match ?x with _ => _ end] =>
        lazymatch x with
        | context [match _ with _ => _ end] => fail
        | _ => destruct x eqn:?
        end
    end).

Ltac no_add_tac :=
  unfold_M; split_innermost; repeat constructor.

Lemma leader_check_no_add env s :
  no_add ((if StoreIsLeader env then mret () else throw FailedPrecondition) s).1.2.
Proof. no_add_tac. Qed.

Lemma resolve_ula_no_add env s : no_add (resolve_ula env s).1.2.
Proof. unfold resolve_ula. no_add_tac. Qed.

Lemma parse_endpoints_frame env l s :
  (parse_endpoints env l s).1 = (s, []).
Proof.
  revert s. induction l as [|e l IH]; intros s; simpl; [done |].
  unfold_M. destruct (ParseAddr env e) as [addr|]; simpl; [| done].
  specialize (IH s). destruct (parse_endpoints env l s) as [[s1 t1] [c|rest]];
    simpl in *; inversion IH; subst; done.
Qed.

Lemma validate_no_add env req s : no_add (validate env req s).1.2.
Proof.
  unfold validate. unfold_M. split_innermost; try by repeat constructor.
  all: match goal with
       | H : parse_endpoints ?e ?l ?st = _ |- _ =>
           pose proof (parse_endpoints_frame e l st) as Hf; rewrite H in Hf;
           simpl in Hf; simplify_eq/=; repeat constructor
       end.
Qed.

Lemma upsert_no_add env req pk pe eps s : no_add (upsert env req pk pe eps s).1.2.
Proof. unfold upsert. no_add_tac. Qed.

Lemma assign_ipv4_no_add env req s : no_add (assign_ipv4 env req s).1.2.
Proof. unfold assign_ipv4. no_add_tac. Qed.

Lemma list_peers_no_add env req s :
  no_add ((issue (CListPeers (Id req));; check (ListPeers env (Id req)) Internal) s).1.2.
Proof. no_add_tac. Qed.

(** The lease [assign_ipv4] yields: the acquired one, or the zero prefix. *)
Lemma assign_ipv4_result env req s s' t lease :
  assign_ipv4 env req s = (s', t, inr lease) ->
  if AssignIpv4 req then Acquire env (Id req) = Ok lease /\ t = [CAcquire (Id req)]
  else lease = "".
Proof.
  unfold assign_ipv4. unfold_M. destruct (AssignIpv4 req); simpl.
  - destruct (Acquire env (Id req)); simpl; intros H; inversion H; subst; auto.
  - intros H; inversion H; subst; auto.
Qed.

Lemma add_to_cluster_trace env req addr s s' t r :
  add_to_cluster env req addr s = (s', t, r) ->
  t = [if AsVoter req then CAddVoter (Id req) addr else CAddNonVoter (Id req) addr].
Proof.
  unfold add_to_cluster. unfold_M. destruct (AsVoter req); simpl.
  - destruct (AddVoter env (Id req) addr); simpl; intros H; inversion H; subst; done.
  - destruct (AddNonVoter env (Id req) addr); simpl; intros H; inversion H; subst; done.
Qed.

(** What [apply_updates] gives: a panic when the stored record and the
    request both list endpoints; otherwise the record handed to
    [peers.Update], with the request's key, ports and endpoints, its
    primary endpoint when it gives one, and the stored id and overlay
    addresses. *)
Lemma apply_updates_eq stored req pk pe eps :
  apply_updates stored req pk pe eps =
  match Endpoints stored, eps with
  | _ :: _, _ :: _ => None
  | _, _ =>
      Some {| ID := ID stored; PublicKey := pk;
              PrimaryEndpoint := if String.eqb pe "" then PrimaryEndpoint stored else pe;
              Endpoints := eps; NetworkIPv6 := NetworkIPv6 stored;
              PrivateIPv4 := PrivateIPv4 stored; GRPCPort := GrpcPort req;
              RaftPort := ReqRaftPort req; WireguardPort := ReqWireguardPort req |}
  end.
Proof.
  destruct stored as [i k p e v6 v4 g r w].
  unfold apply_updates.
  assert (Hk : (if negb (String.eqb k pk) then
                  set_PublicKey (Build_Node i k p e v6 v4 g r w) pk
                else Build_Node i k p e v6 v4 g r w) = Build_Node i pk p e v6 v4 g r w)
    by (destruct (String.eqb_spec k pk); subst; reflexivity).
  simpl. rewrite Hk. simpl.
  destruct (Z.eqb_spec g (GrpcPort req)) as [<-|]; simpl;
  destruct (Z.eqb_spec r (ReqRaftPort req)) as [<-|]; simpl;
  destruct (Z.eqb_spec w (ReqWireguardPort req)) as [<-|]; simpl;
  unfold set_GRPCPort, set_RaftPort, set_WireguardPort; simpl;
  (destruct (String.eqb_spec pe "") as [->|]; simpl;
   [| destruct (String.eqb_spec pe p) as [->|]; simpl]);
  unfold set_PrimaryEndpoint, set_Endpoints; simpl;
  destruct e, eps; reflexivity.
Qed.

(** What [upsert] returns when it returns normally: the record the
    registry gave back for the record Join wrote, [peers.Update] of the
    updated stored record or [peers.Create] of the new one, both carrying
    the request's raft port. *)
Lemma upsert_result env req pk pe eps s s' t peer :
  upsert env req pk pe eps s = (s', t, inr peer) ->
  (exists n, t = [CPeersGet (Id req); CPeersUpdate n] /\ PeersUpdate env n = Ok peer /\
             RaftPort n = ReqRaftPort req) \/
  (exists o, t = [CPeersGet (Id req); CPeersCreate o] /\ PeersCreate env o = Ok peer /\
             CRaftPort o = ReqRaftPort req).
Proof.
  unfold upsert. unfold_M. simpl.
  destruct (PeersGet env (Id req)) as [stored| |e]; simpl; [| | discriminate].
  - destruct (apply_updates stored req pk pe eps) as [n|] eqn:Ha; simpl; [| discriminate].
    destruct (PeersUpdate env n) eqn:Hu; simpl; intros H; inversion H; subst.
    left. exists n. split; [done | split; [done |]].
    rewrite apply_updates_eq in Ha.
    destruct (Endpoints stored), eps; first [discriminate | injection Ha as <-; reflexivity].
  - destruct (Random64 env (ulaPrefix s)); simpl; [| discriminate].
    match goal with |- context [PeersCreate env ?o] => destruct (PeersCreate env o) eqn:Hc end;
      simpl; intros H; inversion H; subst.
    right. eexists. split; [reflexivity | split; [exact Hc | reflexivity]].
Qed.

Lemma join_add_call env req s c id addr :
  add_args c = Some (id, addr) -> c ∈ trace_of (Join env req s) ->
  exists (peer : Node) (lease : string),
    id = Id req /\
    addr = JoinHostPort
             (PrefixAddr env (if AssignIpv4 req && negb (PreferRaftIpv6 req)
                              then lease else NetworkIPv6 peer))
             (pretty (RaftPort peer)) /\
    (if AssignIpv4 req
     then Acquire env (Id req) = Ok lease /\ CAcquire (Id req) ∈ trace_of (Join env req s)
     else lease = "") /\
    ((exists n, CPeersUpdate n ∈ trace_of (Join env req s) /\ PeersUpdate env n = Ok peer /\
                RaftPort n = ReqRaftPort req) \/
     (exists o, CPeersCreate o ∈ trace_of (Join env req s) /\ PeersCreate env o = Ok peer /\
                CRaftPort o = ReqRaftPort req)) /\
    (forall resp, outcome_of (Join env req s) = inr resp ->
       RespNetworkIpv6 resp = NetworkIPv6 peer /\
       RespAddressIpv4 resp = (if AssignIpv4 req then lease else "")).
Proof.
  intros Hc. unfold trace_of, outcome_of.
  destruct (Join env req s) as [[s' t] r] eqn:HJ. simpl. intros Hin.
  unfold Join in HJ.
  destruct (bind_skip _ _ _ _ _ _ _ _ (leader_check_no_add env) Hc HJ Hin)
    as (s1 & t1 & [] & t2 & _ & HJ1 & Hin1 & ->).
  destruct (bind_skip _ _ _ _ _ _ _ _ (resolve_ula_no_add env) Hc HJ1 Hin1)
    as (s2 & t3 & [] & t4 & _ & HJ2 & Hin2 & ->).
  destruct (bind_skip _ _ _ _ _ _ _ _ (validate_no_add env req) Hc HJ2 Hin2)
    as (s3 & t5 & [[pk pe] eps] & t6 & _ & HJ3 & Hin3 & ->).
  simpl in HJ3.
  destruct (bind_skip _ _ _ _ _ _ _ _ (upsert_no_add env req pk pe eps) Hc HJ3 Hin3)
    as (s4 & t7 & peer & t8 & Hup & HJ4 & Hin4 & ->).
  destruct (bind_skip _ _ _ _ _ _ _ _ (assign_ipv4_no_add env req) Hc HJ4 Hin4)
    as (s5 & t9 & lease & t10 & Hlease & HJ5 & Hin5 & ->).
  destruct (bind_skip _ _ _ _ _ _ _ _ (list_peers_no_add env req) Hc HJ5 Hin5)
    as (s6 & t11 & peers & t12 & _ & HJ6 & Hin6 & ->).
  apply assign_ipv4_result in Hlease.
  assert (Hreg :
    (exists n, CPeersUpdate n ∈ t1 ++ t3 ++ t5 ++ t7 ++ t9 ++ t11 ++ t12 /\
               PeersUpdate env n = Ok peer /\ RaftPort n = ReqRaftPort req) \/
    (exists o, CPeersCreate o ∈ t1 ++ t3 ++ t5 ++ t7 ++ t9 ++ t11 ++ t12 /\
               PeersCreate env o = Ok peer /\ CRaftPort o = ReqRaftPort req)).
  { apply upsert_result in Hup as [(n & -> & Hn & Hr) | (o & -> & Ho & Hr)];
      [left; exists n | right; exists o]; (split; [| done]);
      rewrite !elem_of_app; do 3 right; left; apply list_elem_of_In; simpl; tauto. }
  exists peer, lease.
  apply bind_inv in HJ6 as [(c' & Hadd & ->) | (s7 & t13 & [] & t14 & Hadd & Hrest & ->)].
  - apply add_to_cluster_trace in Hadd. subst t12.
    apply list_elem_of_singleton in Hin6. subst c.
    destruct (AsVoter req); simpl in Hc; simplify_eq.
    + split; [done | split; [unfold raftAddress; destruct (AssignIpv4 req && negb (PreferRaftIpv6 req)); reflexivity |]].
      split; [| split; [exact Hreg | discriminate]].
      destruct (AssignIpv4 req); [| done].
      destruct Hlease as [? ->]. split; [done |].
      rewrite !elem_of_app. do 4 right; left. by apply list_elem_of_singleton.
    + split; [done | split; [unfold raftAddress; destruct (AssignIpv4 req && negb (PreferRaftIpv6 req)); reflexivity |]].
      split; [| split; [exact Hreg | discriminate]].
      destruct (AssignIpv4 req); [| done].
      destruct Hlease as [? ->]. split; [done |].
      rewrite !elem_of_app. do 4 right; left. by apply list_elem_of_singleton.
  - apply add_to_cluster_trace in Hadd. subst t13.
    unfold mbind, M_bind, mret, M_ret, issue in Hrest. simpl in Hrest. simplify_eq.
    apply elem_of_app in Hin6 as [Hin6 | Hin6];
      [| apply list_elem_of_singleton in Hin6; subst c; discriminate].
    apply list_elem_of_singleton in Hin6. subst c.
    assert (id = Id req /\ addr = raftAddress env req lease peer) as [-> ->]
      by (destruct (AsVoter req); simpl in Hc; by simplify_eq).
    split; [done | split; [unfold raftAddress; destruct (AssignIpv4 req && negb (PreferRaftIpv6 req)); reflexivity |]].
    split; [| split; [exact Hreg | intros resp Hr; simplify_eq; done]].
    destruct (AssignIpv4 req); [| done].
    destruct Hlease as [? ->]. split; [done |].
      rewrite !elem_of_app. do 4 right; left. by apply list_elem_of_singleton.
Qed.

(** C3: every AddVoter/AddNonVoter call the Join RPC makes carries the
    joining id and the raft address [host:raftPort], where [raftPort] is
    the raft port of the node record the registry returned for the record
    Join wrote ([peers.Update] of the updated stored record or
    [peers.Create] of the new one, written with the request's raft port),
    and [host] is the address of the IPv4 lease acquired in this call when
    the request asked for an IPv4 lease and did not set [preferRaftIPv6],
    and the address of that record's IPv6 prefix otherwise; the lease and
    the IPv6 prefix are the ones a successful response reports. *)
Theorem join_raft_address_v4_iff_lease_and_no_v6_preference :
  forall (env : Env) (req : JoinRequest) (s : Server) (id addr : string),
    CAddVoter id addr ∈ trace_of (Join env req s) \/
    CAddNonVoter id addr ∈ trace_of (Join env req s) ->
    exists (peer : Node) (lease : string),
      id = Id req /\
      addr = JoinHostPort
               (PrefixAddr env (if AssignIpv4 req && negb (PreferRaftIpv6 req)
                                then lease else NetworkIPv6 peer))
               (pretty (RaftPort peer)) /\
      (if AssignIpv4 req
       then Acquire env (Id req) = Ok lease /\ CAcquire (Id req) ∈ trace_of (Join env req s)
       else lease = "") /\
      ((exists n, CPeersUpdate n ∈ trace_of (Join env req s) /\ PeersUpdate env n = Ok peer /\
                  RaftPort n = ReqRaftPort req) \/
       (exists o, CPeersCreate o ∈ trace_of (Join env req s) /\ PeersCreate env o = Ok peer /\
                  CRaftPort o = ReqRaftPort req)) /\
      (forall resp, outcome_of (Join env req s) = inr resp ->
         RespNetworkIpv6 resp = NetworkIPv6 peer /\
         RespAddressIpv4 resp = (if AssignIpv4 req then lease else "")).
Proof.
  intros env req s id addr [Hin | Hin]; eapply join_add_call; try exact Hin; reflexivity.
Qed.

Lemma join_raft_address_v4_iff_lease_and_no_v6_preference_witness :
  (CAddVoter "b" "10.0.0.2:9443" ∈ trace_of (Join (env_b (Ok "fd00::/48")) (join_b true false) server0) \/
   CAddNonVoter "b" "10.0.0.2:9443" ∈ trace_of (Join (env_b (Ok "fd00::/48")) (join_b true false) server0)) /\
  exists (peer : Node) (lease : string),
    "b" = Id (join_b true false) /\
    "10.0.0.2:9443" = JoinHostPort
             (PrefixAddr (env_b (Ok "fd00::/48"))
                (if AssignIpv4 (join_b true false) && negb (PreferRaftIpv6 (join_b true false))
                 then lease else NetworkIPv6 peer))
             (pretty (RaftPort peer)) /\
    (if AssignIpv4 (join_b true false)
     then Acquire (env_b (Ok "fd00::/48")) (Id (join_b true false)) = Ok lease /\
          CAcquire (Id (join_b true false))
            ∈ trace_of (Join (env_b (Ok "fd00::/48")) (join_b true false) server0)
     else lease = "") /\
    ((exists n, CPeersUpdate n ∈ trace_of (Join (env_b (Ok "fd00::/48")) (join_b true false) server0) /\
                PeersUpdate (env_b (Ok "fd00::/48")) n = Ok peer /\
                RaftPort n = ReqRaftPort (join_b true false)) \/
     (exists o, CPeersCreate o ∈ trace_of (Join (env_b (Ok "fd00::/48")) (join_b true false) server0) /\
                PeersCreate (env_b (Ok "fd00::/48")) o = Ok peer /\
                CRaftPort o = ReqRaftPort (join_b true false))) /\
    (forall resp, outcome_of (Join (env_b (Ok "fd00::/48")) (join_b true false) server0) = inr resp ->
       RespNetworkIpv6 resp = NetworkIPv6 peer /\
       RespAddressIpv4 resp = (if AssignIpv4 (join_b true false) then lease else "")).
Proof.
  assert (Hin : CAddVoter "b" "10.0.0.2:9443"
                  ∈ trace_of (Join (env_b (Ok "fd00::/48")) (join_b true false) server0))
    by (rewrite join_b_v4_address; apply list_elem_of_In; simpl; tauto).
  split; [left; exact Hin |].
  apply (join_raft_address_v4_iff_lease_and_no_v6_preference
           (env_b (Ok "fd00::/48")) (join_b true false) server0 "b" "10.0.0.2:9443").
  left; exact Hin.
Defined.




(** A request with an empty id. *)
Definition join_anon : JoinRequest :=
  {| Id := ""; ReqPublicKey := "kb"; ReqPrimaryEndpoint := ""; ReqEndpoints := [];
     GrpcPort := 8443; ReqRaftPort := 9443; ReqWireguardPort := 51820;
     AssignIpv4 := false; PreferRaftIpv6 := false; AsVoter := false |}.

(** C5 (amended): on a leader, a Join with an empty id first resolves the
    ULA prefix when it is not cached: if that lookup fails the RPC returns
    Internal; otherwise (cached, or looked up) it returns InvalidArgument.
    No registry call is made either way. *)
Theorem join_empty_id_after_prefix_resolution :
  forall (env : Env) (req : JoinRequest) (s : Server),
    StoreIsLeader env = true -> Id req = "" ->
    outcome_of (Join env req s)
    = (if String.eqb (ulaPrefix s) "" then
         match GetULAPrefix env with
         | Ok _ => inl InvalidArgument
         | Err _ => inl Internal
         end
       else inl InvalidArgument) /\
    trace_of (Join env req s)
    = (if String.eqb (ulaPrefix s) "" then [CGetULAPrefix] else []).
Proof.
  intros env req s Hl Hid.
  unfold outcome_of, trace_of, Join, resolve_ula, validate. unfold_M.
  rewrite Hl. simpl. rewrite Hid. simpl.
  destruct (String.eqb (ulaPrefix s) ""); simpl; [| split; reflexivity].
  destruct (GetULAPrefix env); simpl; rewrite ?Hid; split; reflexivity.
Qed.

Lemma join_empty_id_after_prefix_resolution_witness :
  StoreIsLeader (env_b (Ok "fd00::/48")) = true /\ Id join_anon = "" /\
  outcome_of (Join (env_b (Ok "fd00::/48")) join_anon server0) = inl InvalidArgument /\
  trace_of (Join (env_b (Ok "fd00::/48")) join_anon server0) = [CGetULAPrefix].
Proof.
  split; [reflexivity | split; [reflexivity |]].
  apply (join_empty_id_after_prefix_resolution (env_b (Ok "fd00::/48")) join_anon server0);
    reflexivity.
Defined.

(** C5 fails as stated: on a leader with no cached prefix whose lookup
    fails, a Join with an empty id returns Internal, not InvalidArgument. *)
Lemma join_empty_id_prefix_failure_internal :
  StoreIsLeader (env_b (Err "meshstate unavailable")) = true /\
  Id join_anon = "" /\
  outcome_of (Join (env_b (Err "meshstate unavailable")) join_anon server0) = inl Internal.
Proof. split; [reflexivity | split; reflexivity]. Qed.

End JoinFacts.

Module AdminFacts.
Import Join Admin.

(** An RBAC evaluator that denies every action. *)
Definition deny_env : Admin.Env :=
  {| RaftIsLeader := true; Evaluate := λ _, (false, None); NetworkingDelete := λ _, None |}.

(** C6 (amended): DeleteNetworkACL checks, in order, leadership
    (FailedPrecondition), an empty name (InvalidArgument), the caller's
    authorization (PermissionDenied, whatever the name), then whether the
    name is system-reserved (InvalidArgument), and only then deletes from
    storage (Internal on a storage error); every outcome but the last
    leaves storage untouched. *)
Theorem delete_network_acl_check_order :
  forall (isSystem : string -> bool) (env : Admin.Env) (acl : NetworkACL),
    let r := DeleteNetworkACL isSystem env acl in
    (RaftIsLeader env = false -> r = ([], inl FailedPrecondition)) /\
    (RaftIsLeader env = true -> Name acl = "" -> r = ([], inl InvalidArgument)) /\
    (RaftIsLeader env = true -> Name acl <> "" -> (Evaluate env (Name acl)).1 = false ->
       r.2 = inl PermissionDenied /\ touches_storage r.1 = false) /\
    (RaftIsLeader env = true -> Name acl <> "" -> (Evaluate env (Name acl)).1 = true ->
       isSystem (Name acl) = true ->
       r = ([EEvaluate (Name acl)], inl InvalidArgument)) /\
    (RaftIsLeader env = true -> Name acl <> "" -> (Evaluate env (Name acl)).1 = true ->
       isSystem (Name acl) = false ->
       r.1 = [EEvaluate (Name acl); ENetworkingDelete (Name acl)] /\
       r.2 = match NetworkingDelete env (Name acl) with
             | Some _ => inl Internal
             | None => inr ()
             end).
Proof.
  intros isSystem env acl r. subst r. unfold DeleteNetworkACL.
  destruct (RaftIsLeader env); [| split; [intros; reflexivity | repeat split; intros; discriminate]].
  split; [discriminate |].
  destruct (String.eqb_spec (Name acl) "") as [He | Hne].
  { split; [intros; reflexivity | repeat split; intros; congruence]. }
  split; [intros; congruence |].
  destruct (Evaluate env (Name acl)) as [ok err]; simpl.
  destruct ok; simpl.
  - split; [intros _ _ ?; discriminate |].
    split; intros _ _ _ Hs; rewrite Hs; [reflexivity |].
    destruct (NetworkingDelete env (Name acl)); split; reflexivity.
  - split; [| split; intros _ _ ?; discriminate].
    intros _ _ _. destruct err; split; reflexivity.
Qed.

(** C6 fails as stated: an unauthorized caller deleting the reserved
    [bootstrap-nodes] ACL gets PermissionDenied, not InvalidArgument. *)
Lemma delete_reserved_acl_unauthorized_denied :
  IsSystemNetworkACL "bootstrap-nodes" = true /\
  DeleteNetworkACL IsSystemNetworkACL deny_env {| Name := "bootstrap-nodes" |}
  = ([EEvaluate "bootstrap-nodes"], inl PermissionDenied).
Proof. split; reflexivity. Qed.

End AdminFacts.

Module CampfireFacts.
Import Chan Campfire.

(** A WebRTC stack on which every step of [New] succeeds. *)
Definition env_ok : Campfire.Env :=
  {| FindCampFire := λ psk turns,
       Join.Ok {| TURNServer := "127.0.0.1:3478"; Secret := "s3cr3t" |};
     NewPeerConnection := λ _, None;
     CreateDataChannel := λ _, None;
     CreateOffer := None;
     SetLocalDescription := None;
     Unmarshal := None;
     Marshal := None;
     SetRemoteDescription := None |}.

Definition opts0 : Options := {| PSK := "hello"; TURNServers := ["127.0.0.1:3478"] |}.

Example new_campfire_calls :
  (New env_ok empty_heap opts0).1.2
  = [CNewPeerConnection ["stun:127.0.0.1:3478"]; CCreateDataChannel "s3cr3t";
     CCreateOffer; CSetLocalDescription; CUnmarshal; CMarshal; CSetRemoteDescription].
Proof. reflexivity. Qed.

(** C8 (code defect): on the camp fire [New] returns, a [Close] whose
    underlying peer-connection close fails returns no error, and nothing
    is delivered on [Errors()]: a receive there still waits. *)
Theorem campfire_close_drops_peer_connection_error :
  match New env_ok empty_heap opts0 with
  | (h, _, inr cf) =>
      Close (Some "ice transport: close failed") h cf = (h, [CPCClose], None) /\
      recv h (Errors cf) = RecvWouldBlock
  | _ => False
  end.
Proof. vm_compute. split; reflexivity. Qed.

Lemma make_twice_lookup_first h :
  chans (make (make h 1).1 0).1 !! next h
  = Some {| capacity := 1; buffer := []; closed := false |}.
Proof.
  simpl. rewrite lookup_insert_ne by (intros Heq; symmetry in Heq; exact (Pos.succ_discr _ Heq)).
  by rewrite lookup_insert_eq.
Qed.

(** C10: every camp fire [New] returns has a nil [readyc] ([New]
    allocates only [errc] and [closec]): [Ready()] is the nil channel,
    on which a receive blocks forever, and once the data channel opens
    and detaches, the [OnOpen] handler, after closing [errc], closes the
    nil [readyc] and panics. *)
Theorem campfire_ready_channel_nil :
  forall (env : Campfire.Env) (h : Heap) (opts : Options),
    match New env h opts with
    | (h', _, inr cf) =>
        readyc cf = None /\ Ready cf = None /\
        errc cf <> None /\ closec cf <> None /\
        recv h' (Ready cf) = RecvBlocksForever /\
        (forall rw, (OnOpen (Join.Ok rw) h' cf).1 = Panic "close of nil channel") /\
        (forall h2 h3 rw, close h2 (errc cf) = Ok h3 ->
           (OnOpen (Join.Ok rw) h2 cf).1 = Panic "close of nil channel")
    | _ => True
    end.
Proof.
  intros env h opts. unfold New.
  destruct (FindCampFire env (PSK opts) (TURNServers opts)) as [loc|e]; [| exact I].
  destruct (NewPeerConnection env _); [exact I |].
  destruct (run_steps _) as [t [e|]]; [exact I |].
  simpl. split; [done | split; [done | split; [done | split; [done |]]]].
  split; [done |].
  split.
  - intros rw. unfold OnOpen. cbn [errc readyc].
    pose proof (make_twice_lookup_first h) as Hl. simpl in Hl.
    rewrite Hl. reflexivity.
  - intros h2 h3 rw Hc. unfold OnOpen. simpl. simpl in Hc. rewrite Hc. reflexivity.
Qed.

End CampfireFacts.

Module MeshDNSFacts.
Import GoStrings MeshDNS.

Lemma Split_nonempty s c : Split s c <> [].
Proof.
  induction s as [|a s IH]; simpl; [discriminate |].
  case_bool_decide; [discriminate |]. destruct (Split s c); [done | discriminate].
Qed.

Lemma Join_cons_String a h t sep :
  Join (String a h :: t) sep = String a (Join (h :: t) sep).
Proof. destruct t; reflexivity. Qed.

Lemma Join_cons_cons e h t sep :
  Join (e :: h :: t) sep = e +:+ sep +:+ Join (h :: t) sep.
Proof. reflexivity. Qed.

Lemma Join_Split s c : Join (Split s c) (String c EmptyString) = s.
Proof.
  induction s as [|a s IH]; simpl; [reflexivity |].
  pose proof (Split_nonempty s c) as Hne.
  case_bool_decide as Hac.
  - subst. destruct (Split s c) as [|h t] eqn:E; [done |]. rewrite Join_cons_cons, IH. reflexivity.
  - destruct (Split s c) as [|h t] eqn:E; [done |]. rewrite Join_cons_String. by rewrite IH.
Qed.

Lemma length_Split s c : length (Split s c) = S (CountByte s c).
Proof.
  induction s as [|a s IH]; simpl; [reflexivity |].
  pose proof (Split_nonempty s c) as Hne.
  case_bool_decide; simpl.
  - by rewrite IH.
  - destruct (Split s c) as [|h t] eqn:E; [done |]. simpl in *. by rewrite IH.
Qed.

Lemma set_Forwarders_same o : set_Forwarders o (Forwarders o) = o.
Proof. by destruct o. Qed.

Lemma Validate_error getenv o :
  (Validate getenv (Some o)).2 =
  if Enabled o && String.eqb (ListenTCP o) "" && String.eqb (ListenUDP o) ""
  then Some "must specify a TCP or UDP address for mesh DNS" else None.
Proof.
  unfold Validate. destruct (Enabled o); simpl; [| reflexivity].
  destruct (String.eqb (ListenTCP o) "" && String.eqb (ListenUDP o) ""); simpl; [reflexivity |].
  repeat case_match; reflexivity.
Qed.

(** X1: Validate accepts a nil receiver, and reports an error exactly for
    enabled options with neither a TCP nor a UDP listen address, in which
    case it leaves them unchanged; the defaults validate whether or not
    mesh DNS is enabled. *)
Theorem meshdns_validate_error_iff_no_listen_address :
  forall (getenv : string -> string) (o : MeshDNSOptions),
    Validate getenv None = (None, None) /\
    ((Validate getenv (Some o)).2 <> None <->
       Enabled o = true /\ ListenTCP o = "" /\ ListenUDP o = "") /\
    ((Validate getenv (Some o)).2 <> None -> (Validate getenv (Some o)).1 = Some o) /\
    (forall en, (Validate getenv (Some {| Enabled := en; ListenUDP := ListenUDP NewMeshDNSOptions;
        ListenTCP := ListenTCP NewMeshDNSOptions; ReusePort := ReusePort NewMeshDNSOptions;
        EnableCompression := EnableCompression NewMeshDNSOptions;
        RequestTimeout := RequestTimeout NewMeshDNSOptions;
        Forwarders := Forwarders NewMeshDNSOptions;
        DisableForwarding := DisableForwarding NewMeshDNSOptions;
        CacheSize := CacheSize NewMeshDNSOptions |})).2 = None).
Proof.
  intros getenv o. split; [reflexivity |].
  split; [| split].
  - rewrite Validate_error.
    destruct (Enabled o), (String.eqb_spec (ListenTCP o) ""), (String.eqb_spec (ListenUDP o) "");
      simpl; split; intros; try done; naive_solver.
  - rewrite Validate_error. intros Herr.
    destruct (Enabled o) eqn:He, (String.eqb (ListenTCP o) "") eqn:Ht,
      (String.eqb (ListenUDP o) "") eqn:Hu; simpl in Herr; try done.
    unfold Validate. rewrite He, Ht, Hu. reflexivity.
  - intros en. rewrite Validate_error. destruct en; reflexivity.
Qed.

(** X2: Validate changes nothing but the forwarders, and changes them
    exactly when mesh DNS is enabled with a listen address, no forwarders
    are configured, forwarding is not disabled and
    SERVICES_MESH_DNS_FORWARDERS is non-empty: the forwarders then are the
    comma-separated pieces of that variable (joined back with commas they
    give its value; there is one more piece than there are commas). *)
Theorem meshdns_validate_forwarders_from_env :
  forall (getenv : string -> string) (o : MeshDNSOptions),
    let envval := getenv MeshDNSForwardersEnvVar in
    exists o', (Validate getenv (Some o)).1 = Some o' /\
      (if Enabled o && negb (String.eqb (ListenTCP o) "" && String.eqb (ListenUDP o) "")
          && bool_decide (Forwarders o = []) && negb (DisableForwarding o)
          && negb (String.eqb envval "")
       then o' = set_Forwarders o (Split envval ",") /\
            Join (Forwarders o') "," = envval /\
            length (Forwarders o') = S (CountByte envval ",")
       else o' = o).
Proof.
  intros getenv o envval. unfold Validate. subst envval.
  destruct (Enabled o); simpl; [| by eexists].
  destruct (String.eqb (ListenTCP o) "" && String.eqb (ListenUDP o) ""); simpl; [by eexists |].
  assert (Hl : bool_decide (length (Forwarders o) = 0%nat) = bool_decide (Forwarders o = []))
    by (apply bool_decide_ext; rewrite length_zero_iff_nil; done).
  rewrite Hl.
  destruct (bool_decide (Forwarders o = [])); simpl; [| by eexists].
  destruct (DisableForwarding o); simpl; [by eexists |].
  destruct (String.eqb (getenv MeshDNSForwardersEnvVar) ""); simpl; [by eexists |].
  eexists. split; [reflexivity |]. split; [reflexivity |]. simpl.
  split; [apply Join_Split | apply length_Split].
Qed.

(** X3: Validate is idempotent: validating the options it returns again
    gives the same options and the same error. *)
Theorem meshdns_validate_idempotent :
  forall (getenv : string -> string) (o o' : MeshDNSOptions) (err : option string),
    Validate getenv (Some o) = (Some o', err) ->
    Validate getenv (Some o') = (Some o', err).
Proof.
  intros getenv o o' err. unfold Validate. cbv zeta.
  destruct (Enabled o) eqn:He; simpl; [| intros H; simplify_eq; by rewrite He].
  destruct (String.eqb (ListenTCP o) "" && String.eqb (ListenUDP o) "") eqn:Hl; simpl;
    [intros H; simplify_eq; by rewrite He, Hl |].
  destruct (bool_decide (length (Forwarders o) = 0%nat) && negb (DisableForwarding o)) eqn:Hf;
    simpl; [| intros H; simplify_eq; by rewrite He, Hl, Hf].
  destruct (String.eqb (getenv MeshDNSForwardersEnvVar) "") eqn:Hv; simpl.
  - intros H; simplify_eq. rewrite He, Hl. simpl. repeat case_match; reflexivity.
  - intros H; simplify_eq. simpl. rewrite He, Hl. simpl.
    rewrite length_Split. reflexivity.
Qed.

(** X4: the forwarders flag splits its value on commas (joined back with
    commas the forwarders give the value), so an empty value yields a
    single empty forwarder; the forwarders the flag sets are never
    replaced by Validate, whatever the environment holds. *)
Theorem meshdns_forwarders_flag_splits_on_commas :
  forall (getenv : string -> string) (o : MeshDNSOptions) (s : string),
    Join (Forwarders (SetForwardersFlag o s)) "," = s /\
    length (Forwarders (SetForwardersFlag o s)) = S (CountByte s ",") /\
    Forwarders (SetForwardersFlag o "") = [""] /\
    (Validate getenv (Some (SetForwardersFlag o s))).1 = Some (SetForwardersFlag o s).
Proof.
  intros getenv o s. simpl. split; [apply Join_Split |]. split; [apply length_Split |].
  split; [reflexivity |].
  unfold Validate. simpl.
  rewrite length_Split. rewrite bool_decide_eq_false_2 by lia. simpl.
  repeat case_match; reflexivity.
Qed.

Lemma prefix_empty s : String.prefix "" s = true.
Proof. by destruct s. Qed.

Lemma HasPrefix_dash_app x y :
  HasPrefix (x +:+ y) "-" = if String.eqb x "" then HasPrefix y "-" else HasPrefix x "-".
Proof.
  unfold HasPrefix. destruct x; simpl; [reflexivity |].
  match goal with |- context [if ?c then _ else _] => destruct c end;
    rewrite ?prefix_empty; reflexivity.
Qed.

Lemma ContainsByte_app x y c :
  ContainsByte (x +:+ y) c = ContainsByte x c || ContainsByte y c.
Proof. induction x as [|a x IH]; simpl; [reflexivity |]. by rewrite IH, orb_assoc. Qed.

Lemma string_app_assoc x y z : (x +:+ y) +:+ z = x +:+ y +:+ z.
Proof.
  induction x as [|a x IH]; [done |].
  change (String a ((x +:+ y) +:+ z) = String a (x +:+ y +:+ z)). by rewrite IH.
Qed.

Lemma string_app_inj x y z : x +:+ y = x +:+ z -> y = z.
Proof. induction x as [|a x IH]; simpl; [done |]. intros H. inversion H. by apply IH. Qed.

Lemma flag_prefix_ok prefix :
  HasPrefix (Join prefix ".") "-" = false -> ContainsByte (Join prefix ".") "=" = false ->
  HasPrefix (flag_prefix prefix) "-" = false /\ ContainsByte (flag_prefix prefix) "=" = false.
Proof.
  intros Hp Hc. unfold flag_prefix. case_bool_decide; [| done].
  rewrite HasPrefix_dash_app, ContainsByte_app, Hc. simpl.
  destruct (String.eqb (Join prefix ".") ""); done.
Qed.

(** The flag set with [names] defined after its own flags. *)
Definition add_formal (fs : FlagSet) (names : list string) : FlagSet :=
  {| fs_name := fs_name fs; formal := formal fs ++ names; undef := undef fs |}.

Lemma define_all_ok names fs :
  NoDup names ->
  Forall (λ n, HasPrefix n "-" = false /\ ContainsByte n "=" = false /\ (n ∉ formal fs) /\
               default "" (undef fs !! n) = "") names ->
  define_all fs names = FlagsOk (add_formal fs names).
Proof.
  revert fs. induction names as [|n ns IH]; intros fs Hnd Hf; simpl.
  - unfold add_formal. rewrite app_nil_r. by destruct fs.
  - apply NoDup_cons in Hnd as [Hn Hnd]. apply Forall_cons in Hf as [(Hp & Hc & Hin & Hu) Hf].
    unfold define. rewrite Hp, Hc. rewrite bool_decide_eq_false_2 by done.
    rewrite Hu. simpl.
    rewrite IH; [unfold add_formal; simpl; by rewrite <- app_assoc | done |].
    apply Forall_forall. intros m Hm. rewrite Forall_forall in Hf.
    destruct (Hf m Hm) as (? & ? & ? & ?). split; [done | split; [done |]]. simpl.
    split; [| done].
    rewrite elem_of_app, list_elem_of_singleton. intros [? | ->]; [done | contradiction].
Qed.

(** X5: for any prefix whose dotted form neither begins with a dash nor
    contains '=', BindFlags on a flag set that neither defines nor has
    recorded as set-before-defined any of its flag names defines nine
    distinct flags, each named [p] followed by a [services.mesh-dns.*]
    name, without panicking; binding the same prefix a second time on the
    resulting flag set panics with Go's redefinition message for the first
    flag (naming the flag set when it has a name); and if instead the
    first flag name had been set at a position before being defined,
    BindFlags panics with Go 1.21's "set at ... before being defined"
    message. *)
Theorem meshdns_bindflags_distinct_then_redefinition_panics :
  forall (fs : FlagSet) (prefix : list string),
    HasPrefix (Join prefix ".") "-" = false ->
    ContainsByte (Join prefix ".") "=" = false ->
    Forall (λ n, (n ∉ formal fs) /\ default "" (undef fs !! n) = "")
      (map (λ n, flag_prefix prefix +:+ n) MeshDNSFlagNames) ->
    BindFlags fs prefix
    = FlagsOk (add_formal fs (map (λ n, flag_prefix prefix +:+ n) MeshDNSFlagNames)) /\
    NoDup (map (λ n, flag_prefix prefix +:+ n) MeshDNSFlagNames) /\
    BindFlags (add_formal fs (map (λ n, flag_prefix prefix +:+ n) MeshDNSFlagNames)) prefix
    = FlagPanic (if String.eqb (fs_name fs) ""
                 then "flag redefined: " +:+ flag_prefix prefix +:+ "services.mesh-dns.enabled"
                 else fs_name fs +:+ " flag redefined: " +:+
                      flag_prefix prefix +:+ "services.mesh-dns.enabled") /\
    (forall pos, pos <> "" ->
     BindFlags {| fs_name := fs_name fs; formal := formal fs;
                  undef := <[flag_prefix prefix +:+ "services.mesh-dns.enabled" := pos]> (undef fs) |}
               prefix
     = FlagPanic ("flag " +:+ flag_prefix prefix +:+ "services.mesh-dns.enabled" +:+
                  " set at " +:+ pos +:+ " before being defined")).
Proof.
  intros fs prefix Hp Hc Hfs.
  destruct (flag_prefix_ok prefix Hp Hc) as [Hp' Hc'].
  assert (Hchk : Forall (λ n, HasPrefix n "-" = false /\ ContainsByte n "=" = false)
                   (map (λ n, flag_prefix prefix +:+ n) MeshDNSFlagNames)).
  { apply Forall_fmap. unfold compose. apply Forall_forall. intros n Hn.
    rewrite HasPrefix_dash_app, ContainsByte_app, Hc'. rewrite Hp'.
    repeat (apply elem_of_cons in Hn as [-> | Hn]; [destruct (String.eqb _ ""); split; reflexivity |]).
    by apply elem_of_nil in Hn. }
  assert (Hnd : NoDup (map (λ n, flag_prefix prefix +:+ n) MeshDNSFlagNames)).
  { apply NoDup_fmap_2; [intros x y; apply string_app_inj | by vm_compute; repeat constructor; set_solver]. }
  inversion Hchk as [| n0 ns [Hp0 Hc0] Hrest]; subst.
  inversion Hfs as [| n1 ns1 [Hin0 Hu0] Hrest1]; subst.
  split; [| split; [done | split]].
  - unfold BindFlags. apply define_all_ok; [done |].
    rewrite Forall_forall in Hchk, Hfs |- *. intros n Hn.
    destruct (Hchk n Hn). destruct (Hfs n Hn). done.
  - unfold BindFlags. simpl. unfold define.
    rewrite Hp0, Hc0. rewrite bool_decide_eq_true_2; [reflexivity |].
    apply elem_of_app. right. left.
  - intros pos Hpos. unfold BindFlags. cbn [map MeshDNSFlagNames define_all]. unfold define.
    cbn [fs_name formal undef].
    rewrite Hp0, Hc0, bool_decide_eq_false_2 by done.
    rewrite lookup_insert_eq. cbn [default].
    match goal with |- context [negb ?b] => destruct b eqn:E end; cbn [negb].
    { exfalso. apply Hpos. by apply String.eqb_eq. }
    by rewrite string_app_assoc.
Qed.

Definition env_fwd : string -> string :=
  λ k, if String.eqb k MeshDNSForwardersEnvVar then "1.1.1.1,8.8.8.8" else "".

Definition dns_on : MeshDNSOptions :=
  {| Enabled := true; ListenUDP := ":5353"; ListenTCP := ":5353"; ReusePort := 0;
     EnableCompression := true; RequestTimeout := Second * 5; Forwarders := [];
     DisableForwarding := false; CacheSize := 0 |}.

Lemma meshdns_validate_idempotent_witness :
  Validate env_fwd (Some dns_on) = (Some (set_Forwarders dns_on ["1.1.1.1"; "8.8.8.8"]), None) /\
  Validate env_fwd (Some (set_Forwarders dns_on ["1.1.1.1"; "8.8.8.8"]))
  = (Some (set_Forwarders dns_on ["1.1.1.1"; "8.8.8.8"]), None).
Proof.
  assert (H : Validate env_fwd (Some dns_on)
              = (Some (set_Forwarders dns_on ["1.1.1.1"; "8.8.8.8"]), None)) by reflexivity.
  split; [exact H |].
  exact (meshdns_validate_idempotent env_fwd dns_on _ None H).
Defined.

Definition fs_node : FlagSet := {| fs_name := "webmesh"; formal := ["help"]; undef := ∅ |}.

Lemma meshdns_bindflags_distinct_then_redefinition_panics_witness :
  HasPrefix (Join ["node"] ".") "-" = false /\
  ContainsByte (Join ["node"] ".") "=" = false /\
  Forall (λ n, (n ∉ formal fs_node) /\ default "" (undef fs_node !! n) = "")
    (map (λ n, flag_prefix ["node"] +:+ n) MeshDNSFlagNames) /\
  BindFlags fs_node ["node"]
  = FlagsOk (add_formal fs_node (map (λ n, flag_prefix ["node"] +:+ n) MeshDNSFlagNames)) /\
  NoDup (map (λ n, flag_prefix ["node"] +:+ n) MeshDNSFlagNames) /\
  BindFlags (add_formal fs_node (map (λ n, flag_prefix ["node"] +:+ n) MeshDNSFlagNames)) ["node"]
  = FlagPanic "webmesh flag redefined: node.services.mesh-dns.enabled" /\
  BindFlags {| fs_name := "webmesh"; formal := ["help"];
               undef := <["node.services.mesh-dns.enabled" := "cmd:3"]> ∅ |} ["node"]
  = FlagPanic "flag node.services.mesh-dns.enabled set at cmd:3 before being defined".
Proof.
  assert (Hp : HasPrefix (Join ["node"] ".") "-" = false) by reflexivity.
  assert (Hc : ContainsByte (Join ["node"] ".") "=" = false) by reflexivity.
  assert (Hf : Forall (λ n, (n ∉ formal fs_node) /\ default "" (undef fs_node !! n) = "")
                 (map (λ n, flag_prefix ["node"] +:+ n) MeshDNSFlagNames)).
  { apply Forall_forall. intros n Hn. split; [| reflexivity].
    revert n Hn. apply Forall_forall. apply (bool_decide_unpack _). vm_compute. exact I. }
  split; [exact Hp | split; [exact Hc | split; [exact Hf |]]].
  destruct (meshdns_bindflags_distinct_then_redefinition_panics fs_node ["node"] Hp Hc Hf)
    as (H1 & H2 & H3 & H4).
  split; [exact H1 | split; [exact H2 | split; [exact H3 |]]].
  exact (H4 "cmd:3" ltac:(discriminate)).
Defined.

End MeshDNSFacts.

Module ObserverRunFacts.
Import Peers Observer ObserverFacts ObserverRun.

Lemma observe_fail_below s env fhb pid :
  0 < HeartbeatPurgeThreshold s ->
  default 0 (fhb !! pid) + 1 < HeartbeatPurgeThreshold s ->
  observe s env fhb (FailedHeartbeatObservation pid)
  = (<[pid := default 0 (fhb !! pid) + 1]> fhb, []).
Proof.
  intros Hpos Hlt. unfold observe.
  rewrite (proj2 (Z.leb_gt _ _)) by lia. cbv zeta. rewrite lookup_insert_eq. simpl.
  rewrite (proj2 (Z.leb_gt _ _)) by lia. reflexivity.
Qed.

(** [k] failed heartbeats of [pid], none of which reaches the threshold,
    only count. *)
Lemma observe_all_failures_below s env fhb pid (k : nat) :
  0 < HeartbeatPurgeThreshold s ->
  default 0 (fhb !! pid) + Z.of_nat k < HeartbeatPurgeThreshold s ->
  observe_all s fhb (replicate k (env, FailedHeartbeatObservation pid))
  = (match k with O => fhb | _ => <[pid := default 0 (fhb !! pid) + Z.of_nat k]> fhb end, []).
Proof.
  revert fhb. induction k as [|k IH]; intros fhb Hpos Hlt; [reflexivity |].
  cbn [replicate observe_all]. rewrite observe_fail_below by lia. cbv zeta.
  rewrite IH; [| lia | rewrite lookup_insert_eq; simpl; lia].
  rewrite lookup_insert_eq. cbn [default].
  destruct k as [|k]; [reflexivity |].
  rewrite insert_insert_eq. cbn [app]. unfold id. f_equal. f_equal. lia.
Qed.

Lemma observe_all_app s fhb l1 l2 :
  observe_all s fhb (l1 ++ l2)
  = let '(f1, e1) := observe_all s fhb l1 in
    let '(f2, e2) := observe_all s f1 l2 in (f2, e1 ++ e2).
Proof.
  revert fhb. induction l1 as [|[env ev] l1 IH]; intros fhb; simpl.
  - by destruct (observe_all s fhb l2).
  - destruct (observe s env fhb ev) as [f1 e1].
    rewrite IH. destruct (observe_all s f1 l1) as [f2 e2].
    destruct (observe_all s f2 l2) as [f3 e3]. by rewrite app_assoc.
Qed.

(** X6: with a positive threshold [t], on a leader whose [RemoveServer]
    succeeds, starting from no recorded failure of [pid], the first [t - 1]
    consecutive failed heartbeats of [pid] only count (no call is issued,
    the counter holds the number of failures), and the [t]-th issues
    [RemoveServer(pid, true)] then [peers.Delete(pid)] and drops the
    counter, which leaves the map as it was before the first failure. *)
Theorem heartbeat_purge_on_threshold_th_consecutive_failure :
  forall (s : meshStore) (env : Env) (fhb : Counters) (pid : string),
    0 < HeartbeatPurgeThreshold s -> fhb !! pid = None ->
    IsLeader env = true -> RemoveServer env pid true = None ->
    (forall k : nat, (k < Z.to_nat (HeartbeatPurgeThreshold s))%nat ->
       observe_all s fhb (replicate k (env, FailedHeartbeatObservation pid))
       = (match k with O => fhb | _ => <[pid := Z.of_nat k]> fhb end, [])) /\
    observe_all s fhb
      (replicate (Z.to_nat (HeartbeatPurgeThreshold s)) (env, FailedHeartbeatObservation pid))
    = (fhb, [ERemoveServer pid true; EPeersDelete pid]
              ++ warn_opt (PeersDelete env pid) "failed to remove peer from database").
Proof.
  intros s env fhb pid Hpos Hnone Hl Hr.
  assert (Hk : forall k : nat, (k < Z.to_nat (HeartbeatPurgeThreshold s))%nat ->
       observe_all s fhb (replicate k (env, FailedHeartbeatObservation pid))
       = (match k with O => fhb | _ => <[pid := Z.of_nat k]> fhb end, [])).
  { intros k Hk. rewrite observe_all_failures_below; [| done | rewrite Hnone; simpl; lia].
    rewrite Hnone. simpl. by destruct k. }
  split; [exact Hk |].
  destruct (Z.to_nat (HeartbeatPurgeThreshold s)) as [|m] eqn:Ht; [lia |].
  rewrite replicate_S_end, observe_all_app, Hk by lia. simpl.
  unfold observe. rewrite (proj2 (Z.leb_gt _ _)) by lia. cbv zeta.
  rewrite lookup_insert_eq. cbn [default].
  assert (Hc : default 0 ((match m with O => fhb | _ => <[pid := Z.of_nat m]> fhb end) !! pid) + 1
               = HeartbeatPurgeThreshold s).
  { destruct m; [rewrite Hnone; simpl; lia | rewrite lookup_insert_eq; simpl; lia]. }
  rewrite Hc, Z.leb_refl, Hl, Hr. simpl.
  rewrite delete_insert_eq.
  destruct m; simpl; [| rewrite delete_insert_eq]; rewrite delete_id by done; by rewrite app_nil_r.
Qed.

(** X7: with a positive threshold [t], a resumed heartbeat of [pid] resets
    its failure count whatever it was: after it, fewer than [t] failed
    heartbeats of [pid] issue nothing (even on a leader) and leave the
    count at the number of failures since the resume. *)
Theorem heartbeat_resume_resets_count :
  forall (s : meshStore) (env0 env : Env) (fhb : Counters) (pid : string) (k : nat),
    0 < HeartbeatPurgeThreshold s ->
    (k < Z.to_nat (HeartbeatPurgeThreshold s))%nat ->
    observe_all s fhb ((env0, ResumedHeartbeatObservation pid)
                         :: replicate k (env, FailedHeartbeatObservation pid))
    = (match k with O => delete pid fhb | _ => <[pid := Z.of_nat k]> fhb end, []).
Proof.
  intros s env0 env fhb pid k Hpos Hk.
  cbn [observe_all]. unfold observe at 1. rewrite (proj2 (Z.ltb_lt _ _)) by done.
  rewrite observe_all_failures_below; [| done | rewrite lookup_delete_eq; simpl; lia].
  rewrite lookup_delete_eq. simpl.
  destruct k; [reflexivity |]. by rewrite insert_delete_eq.
Qed.

(** The peer a heartbeat observation is about. *)
Definition heartbeat_peer (ev : Observation) : option string :=
  match ev with
  | FailedHeartbeatObservation p | ResumedHeartbeatObservation p => Some p
  | _ => None
  end.

Lemma observe_other_counter s env fhb ev q :
  heartbeat_peer ev <> Some q -> fst (observe s env fhb ev) !! q = fhb !! q.
Proof.
  intros Hq. destruct ev as [p|p|peer removed|lid]; simpl in Hq; unfold observe.
  - assert (p <> q) by congruence.
    repeat case_match; simpl; rewrite ?lookup_delete_ne, ?lookup_insert_ne by done; done.
  - assert (p <> q) by congruence.
    repeat case_match; simpl; rewrite ?lookup_delete_ne by done; done.
  - repeat case_match; done.
  - repeat case_match; done.
Qed.

(** X8: the failure count of a peer [q] changes only through heartbeat
    observations about [q]: over any sequence of observations none of
    which is a failed or resumed heartbeat of [q], the count of [q] is
    unchanged; and a sequence with no heartbeat observation at all (only
    peer and leader changes) leaves the whole map unchanged and never
    issues [RemoveServer] or [peers.Delete]. *)
Theorem observer_counter_changes_only_by_own_heartbeats :
  forall (s : meshStore) (fhb : Counters) (evs : list (Env * Observation)) (q : string),
    (Forall (λ x, heartbeat_peer x.2 <> Some q) evs ->
       fst (observe_all s fhb evs) !! q = fhb !! q) /\
    (Forall (λ x, heartbeat_peer x.2 = None) evs ->
       (observe_all s fhb evs).1 = fhb /\
       forall p f, (ERemoveServer p f ∉ (observe_all s fhb evs).2) /\
                   EPeersDelete p ∉ (observe_all s fhb evs).2).
Proof.
  intros s fhb evs q. split.
  - revert fhb. induction evs as [|[env ev] evs IH]; intros fhb Hf; [done |].
    apply Forall_cons in Hf as [Hev Hf]. simpl.
    pose proof (observe_other_counter s env fhb ev q Hev) as Hc.
    destruct (observe s env fhb ev) as [f1 e1]. specialize (IH f1 Hf).
    destruct (observe_all s f1 evs) as [f2 e2]. simpl in *. congruence.
  - revert fhb. induction evs as [|[env ev] evs IH]; intros fhb Hf.
    + simpl. split; [done | intros p f; split; apply not_elem_of_nil].
    + apply Forall_cons in Hf as [Hev Hf]. simpl in Hev.
      assert (Hobs : (observe s env fhb ev).1 = fhb /\
                     forall p f, (ERemoveServer p f ∉ (observe s env fhb ev).2) /\
                                 EPeersDelete p ∉ (observe s env fhb ev).2).
      { destruct ev as [p|p|peer removed|lid]; simpl in Hev; try discriminate;
          unfold observe; repeat case_match; simpl; split; try done;
          intros p0 f0; unfold warn_opt; repeat case_match;
          split; intros Hin;
          repeat (rewrite elem_of_app in Hin || rewrite elem_of_cons in Hin
                  || rewrite elem_of_nil in Hin);
          intuition discriminate. }
      simpl. destruct (observe s env fhb ev) as [f1 e1]. simpl in Hobs.
      destruct Hobs as [-> Hno]. specialize (IH fhb Hf).
      destruct (observe_all s fhb evs) as [f2 e2]. simpl in *.
      destruct IH as [-> Hno2]. split; [done |].
      intros p f. rewrite !elem_of_app. specialize (Hno p f). specialize (Hno2 p f).
      split; intros [? | ?]; tauto.
Qed.

(** Every [peers.Delete(p)] in an effect list comes right after a
    successful [RemoveServer(p, true)]. *)
Definition delete_after_remove (effs : list Effect) : Prop :=
  forall (i : nat) (p : string), effs !! i = Some (EPeersDelete p) ->
    exists j, i = S j /\ effs !! j = Some (ERemoveServer p true).

Lemma delete_after_remove_app e1 e2 :
  delete_after_remove e1 -> delete_after_remove e2 -> delete_after_remove (e1 ++ e2).
Proof.
  intros H1 H2 i p Hi. destruct (decide (i < length e1)%nat) as [Hlt|Hge].
  - rewrite lookup_app_l in Hi by done. destruct (H1 i p Hi) as [j [-> Hj]].
    exists j. split; [done |]. rewrite lookup_app_l by lia. done.
  - rewrite lookup_app_r in Hi by lia.
    destruct (H2 _ _ Hi) as [j [Hij Hj]]. exists (length e1 + j)%nat. split; [lia |].
    rewrite lookup_app_r by lia. by replace (length e1 + j - length e1)%nat with j by lia.
Qed.

Lemma delete_after_remove_observe s env fhb ev :
  delete_after_remove (snd (observe s env fhb ev)).
Proof.
  unfold observe, warn_opt.
  destruct ev; repeat case_match; simpl; intros i p Hi;
    repeat (destruct i as [|i]; simpl in Hi; try discriminate);
    injection Hi as <-; eexists; split; reflexivity.
Qed.

(** X9: in the calls the observer issues for any sequence of observations,
    [peers.Delete(p)] is never issued on its own: each one comes
    immediately after a [RemoveServer(p, true)] for the same peer (and
    that call succeeded, since a failed one is followed by the warning
    and no delete). *)
Theorem observer_delete_follows_remove_server :
  forall (s : meshStore) (fhb : Counters) (evs : list (Env * Observation))
         (i : nat) (p : string),
    snd (observe_all s fhb evs) !! i = Some (EPeersDelete p) ->
    i <> O /\ snd (observe_all s fhb evs) !! (pred i) = Some (ERemoveServer p true).
Proof.
  intros s fhb evs i p Hi.
  assert (Hg : delete_after_remove (snd (observe_all s fhb evs))).
  { clear Hi. revert fhb. induction evs as [|[env ev] evs IH]; intros fhb.
    - intros j q Hj. simpl in Hj. rewrite lookup_nil in Hj. discriminate.
    - simpl. pose proof (delete_after_remove_observe s env fhb ev) as H1.
      destruct (observe s env fhb ev) as [f1 e1]. specialize (IH f1).
      destruct (observe_all s f1 evs) as [f2 e2]. simpl in *.
      by apply delete_after_remove_app. }
  destruct (Hg i p Hi) as [j [-> Hj]]. split; [done | exact Hj].
Qed.


Lemma heartbeat_purge_on_threshold_th_consecutive_failure_witness :
  0 < HeartbeatPurgeThreshold store3 /\ (∅ : Counters) !! "b" = None /\
  IsLeader (leader_env true false) = true /\ RemoveServer (leader_env true false) "b" true = None /\
  (forall k : nat, (k < Z.to_nat (HeartbeatPurgeThreshold store3))%nat ->
     observe_all store3 ∅ (replicate k (leader_env true false, FailedHeartbeatObservation "b"))
     = (match k with O => ∅ | _ => <["b" := Z.of_nat k]> ∅ end, [])) /\
  observe_all store3 ∅
    (replicate (Z.to_nat (HeartbeatPurgeThreshold store3))
       (leader_env true false, FailedHeartbeatObservation "b"))
  = (∅, [ERemoveServer "b" true; EPeersDelete "b"]
          ++ warn_opt (PeersDelete (leader_env true false) "b") "failed to remove peer from database").
Proof.
  assert (H1 : 0 < HeartbeatPurgeThreshold store3) by reflexivity.
  assert (H2 : (∅ : Counters) !! "b" = None) by reflexivity.
  assert (H3 : IsLeader (leader_env true false) = true) by reflexivity.
  assert (H4 : RemoveServer (leader_env true false) "b" true = None) by reflexivity.
  split; [exact H1 | split; [exact H2 | split; [exact H3 | split; [exact H4 |]]]].
  exact (heartbeat_purge_on_threshold_th_consecutive_failure store3 (leader_env true false) ∅ "b"
           H1 H2 H3 H4).
Defined.

Lemma heartbeat_resume_resets_count_witness :
  0 < HeartbeatPurgeThreshold store3 /\ (2 < Z.to_nat (HeartbeatPurgeThreshold store3))%nat /\
  observe_all store3 {[ "b" := 7 ]}
    ((leader_env true false, ResumedHeartbeatObservation "b")
       :: replicate 2 (leader_env true false, FailedHeartbeatObservation "b"))
  = (<["b" := 2]> {[ "b" := 7 ]}, []).
Proof.
  assert (H1 : 0 < HeartbeatPurgeThreshold store3) by reflexivity.
  assert (H2 : (2 < Z.to_nat (HeartbeatPurgeThreshold store3))%nat) by (simpl; lia).
  split; [exact H1 | split; [exact H2 |]].
  exact (heartbeat_resume_resets_count store3 (leader_env true false) (leader_env true false)
           {[ "b" := 7 ]} "b" 2 H1 H2).
Defined.

Lemma observer_delete_follows_remove_server_witness :
  snd (observe_all store3 ∅ (replicate 3 (leader_env true true, FailedHeartbeatObservation "b")))
    !! 1%nat = Some (EPeersDelete "b") /\
  1%nat <> O /\
  snd (observe_all store3 ∅ (replicate 3 (leader_env true true, FailedHeartbeatObservation "b")))
    !! (pred 1) = Some (ERemoveServer "b" true).
Proof.
  assert (H : snd (observe_all store3 ∅ (replicate 3 (leader_env true true, FailedHeartbeatObservation "b")))
                !! 1%nat = Some (EPeersDelete "b")) by reflexivity.
  split; [exact H |].
  exact (observer_delete_follows_remove_server store3 ∅ _ 1 "b" H).
Defined.

End ObserverRunFacts.

Module JoinPhaseFacts.
Import Peers Join JoinFacts.

(** A computation that leaves the server as it is. *)
Definition keeps {A} (m : M A) : Prop := forall s, (m s).1.1 = s.

(** A computation whose early returns all carry a code satisfying [C]. *)
Definition codes_in {A} (C : Code -> Prop) (m : M A) : Prop :=
  forall s c, (m s).2 = inl c -> C c.

(** A computation that never issues the call [c]. *)
Definition avoids {A} (c : Call) (m : M A) : Prop :=
  forall s, Forall (λ x, x <> c) (m s).1.2.

Lemma keeps_bind {A B} (m : M A) (f : A -> M B) :
  keeps m -> (forall a, keeps (f a)) -> keeps (m ≫= f).
Proof.
  intros Hm Hf s. unfold mbind, M_bind. specialize (Hm s).
  destruct (m s) as [[s1 t1] [c|a]]; simpl in *; [done |].
  specialize (Hf a s1). destruct (f a s1) as [[s2 t2] r]. simpl in *. congruence.
Qed.

Lemma bind_state_right {A B} (m : M A) (f : A -> M B) s :
  (forall a, keeps (f a)) -> ((m ≫= f) s).1.1 = (m s).1.1.
Proof.
  intros Hf. unfold mbind, M_bind.
  destruct (m s) as [[s1 t1] [c|a]]; simpl; [done |].
  specialize (Hf a s1). destruct (f a s1) as [[s2 t2] r]. done.
Qed.

Lemma codes_bind {A B} (C : Code -> Prop) (m : M A) (f : A -> M B) :
  codes_in C m -> (forall a, codes_in C (f a)) -> codes_in C (m ≫= f).
Proof.
  intros Hm Hf s c. unfold mbind, M_bind. specialize (Hm s).
  destruct (m s) as [[s1 t1] [c'|a]]; simpl in *.
  - intros H. injection H as <-. by apply Hm.
  - specialize (Hf a s1). destruct (f a s1) as [[s2 t2] r]. simpl in *. apply Hf.
Qed.

Lemma avoids_bind {A B} c (m : M A) (f : A -> M B) :
  avoids c m -> (forall a, avoids c (f a)) -> avoids c (m ≫= f).
Proof.
  intros Hm Hf s. unfold mbind, M_bind. specialize (Hm s).
  destruct (m s) as [[s1 t1] [c'|a]]; simpl in *; [done |].
  specialize (Hf a s1). destruct (f a s1) as [[s2 t2] r]. simpl in *.
  by apply Forall_app.
Qed.

Lemma avoids_not_in {A} c (m : M A) s : avoids c m -> c ∉ (m s).1.2.
Proof.
  intros H Hin. specialize (H s). rewrite Forall_forall in H. by apply (H c).
Qed.

(** A call in the trace of [m ≫= f] made by [m] when [f] never makes it. *)
Lemma bind_in_left {A B} c (m : M A) (f : A -> M B) s :
  (forall a, avoids c (f a)) -> c ∈ ((m ≫= f) s).1.2 -> c ∈ (m s).1.2.
Proof.
  intros Hf. unfold mbind, M_bind.
  destruct (m s) as [[s1 t1] [c'|a]]; simpl; [done |].
  pose proof (avoids_not_in c (f a) s1 (Hf a)) as Hn.
  destruct (f a s1) as [[s2 t2] r]. simpl in *.
  rewrite elem_of_app. tauto.
Qed.

(** [unfold_M], then the [mret] and [throw] that [check] unfolds to. *)
Ltac unfold_M' := unfold_M; unfold mret, M_ret, throw.

Ltac phase_tac :=
  intros ?; unfold_M'; split_innermost; simpl; repeat (constructor || discriminate).

Lemma parse_endpoints_keeps env l : keeps (parse_endpoints env l).
Proof. intros s. by rewrite parse_endpoints_frame. Qed.

Lemma parse_endpoints_trace env l s : (parse_endpoints env l s).1.2 = [].
Proof. by rewrite parse_endpoints_frame. Qed.

Lemma parse_endpoints_outcome env l s :
  match (parse_endpoints env l s).2 with
  | inl c => c = InvalidArgument /\ Exists (λ e, exists m, ParseAddr env e = Err m) l
  | inr eps => Forall2 (λ e a, ParseAddr env e = Ok a) l eps
  end.
Proof.
  revert s. induction l as [|e l IH]; intros s; simpl; [constructor |].
  unfold_M. destruct (ParseAddr env e) as [addr|m] eqn:He; simpl.
  - specialize (IH s). destruct (parse_endpoints env l s) as [[s1 t1] [c|rest]]; simpl in *.
    + destruct IH as [-> IH]. split; [done |]. by apply Exists_cons_tl.
    + by constructor.
  - split; [done |]. apply Exists_cons_hd. eauto.
Qed.

Lemma validate_frame env req s : (validate env req s).1 = (s, []).
Proof.
  unfold validate. unfold_M. split_innermost; try done.
  all: match goal with
       | H : parse_endpoints ?e ?l ?st = _ |- _ =>
           pose proof (parse_endpoints_frame e l st) as Hf; rewrite H in Hf;
           simpl in Hf; simplify_eq/=; done
       end.
Qed.

(** What [validate] returns: the parsed key, primary endpoint ("" when
    the request gives none) and endpoints, or InvalidArgument when one
    of the checks fails. *)
Lemma validate_outcome env req s :
  match (validate env req s).2 with
  | inl c => c = InvalidArgument /\
      (Id req = "" \/ (exists m, ParseKey env (ReqPublicKey req) = Err m) \/
       (ReqPrimaryEndpoint req <> "" /\ exists m, ParseAddr env (ReqPrimaryEndpoint req) = Err m) \/
       Exists (λ e, exists m, ParseAddr env e = Err m) (ReqEndpoints req))
  | inr (pk, pe, eps) =>
      Id req <> "" /\ ParseKey env (ReqPublicKey req) = Ok pk /\
      (if String.eqb (ReqPrimaryEndpoint req) "" then pe = ""
       else ParseAddr env (ReqPrimaryEndpoint req) = Ok pe) /\
      Forall2 (λ e a, ParseAddr env e = Ok a) (ReqEndpoints req) eps
  end.
Proof.
  unfold validate. destruct (String.eqb_spec (Id req) "") as [Hid|Hid].
  { simpl. split; [done | by left]. }
  unfold_M. simpl.
  destruct (ParseKey env (ReqPublicKey req)) as [pk|m] eqn:Hk; simpl;
    [| split; [done | right; left; eauto]].
  destruct (String.eqb_spec (ReqPrimaryEndpoint req) "") as [Hpe|Hpe]; simpl.
  - pose proof (parse_endpoints_outcome env (ReqEndpoints req) s) as Ho.
    destruct (parse_endpoints env (ReqEndpoints req) s) as [[s1 t1] [c|eps]]; simpl in *.
    + destruct Ho as [-> Ho]. split; [done | do 3 right; done].
    + done.
  - destruct (ParseAddr env (ReqPrimaryEndpoint req)) as [pe|m] eqn:Hp; simpl;
      [| split; [done | do 2 right; left; eauto]].
    pose proof (parse_endpoints_outcome env (ReqEndpoints req) s) as Ho.
    destruct (parse_endpoints env (ReqEndpoints req) s) as [[s1 t1] [c|eps]]; simpl in *.
    + destruct Ho as [-> Ho]. split; [done | do 3 right; done].
    + done.
Qed.

Lemma validate_keeps env req : keeps (validate env req).
Proof. intros s. by rewrite validate_frame. Qed.

Lemma validate_avoids env req c : avoids c (validate env req).
Proof. intros s. rewrite validate_frame. constructor. Qed.

Lemma validate_codes env req : codes_in (λ c, c = InvalidArgument) (validate env req).
Proof.
  intros s c Hc. pose proof (validate_outcome env req s) as Ho. rewrite Hc in Ho. tauto.
Qed.

Lemma upsert_keeps env req pk pe eps : keeps (upsert env req pk pe eps).
Proof. unfold upsert. phase_tac. Qed.

Lemma upsert_codes env req pk pe eps :
  codes_in (λ c, c = Internal \/ c = GoPanic) (upsert env req pk pe eps).
Proof.
  intros s c. unfold upsert. unfold_M'. split_innermost; intros H; simpl in H;
    first [discriminate | injection H as <-; auto].
Qed.

Lemma assign_ipv4_keeps env req : keeps (assign_ipv4 env req).
Proof. unfold assign_ipv4. phase_tac. Qed.

Lemma assign_ipv4_codes env req : codes_in (λ c, c = Internal) (assign_ipv4 env req).
Proof. intros s c. unfold assign_ipv4. unfold_M'. split_innermost; intros H; simpl in H; congruence. Qed.

Lemma add_to_cluster_keeps env req a : keeps (add_to_cluster env req a).
Proof. unfold add_to_cluster. phase_tac. Qed.

Lemma add_to_cluster_codes env req a : codes_in (λ c, c = Internal) (add_to_cluster env req a).
Proof. intros s c. unfold add_to_cluster. unfold_M'. split_innermost; intros H; simpl in H; congruence. Qed.

Lemma bind_in_right {A B} c (m : M A) (f : A -> M B) s :
  avoids c m -> c ∈ ((m ≫= f) s).1.2 ->
  exists s1 t1 a, m s = (s1, t1, inr a) /\ c ∈ (f a s1).1.2.
Proof.
  intros Hm. pose proof (avoids_not_in c m s Hm) as Hn. unfold mbind, M_bind.
  destruct (m s) as [[s1 t1] [c'|a]]; simpl in *; [done |].
  destruct (f a s1) as [[s2 t2] r] eqn:E. simpl.
  rewrite elem_of_app. intros [? | Hin]; [done |]. exists s1, t1, a. by rewrite E.
Qed.

Lemma bind_in_iff {A B} c (m : M A) (f : A -> M B) s :
  (forall a, avoids c (f a)) -> c ∈ ((m ≫= f) s).1.2 <-> c ∈ (m s).1.2.
Proof.
  intros Hf. split; [apply bind_in_left, Hf |].
  unfold mbind, M_bind. destruct (m s) as [[s1 t1] [c'|a]]; simpl; [done |].
  destruct (f a s1) as [[s2 t2] r]. simpl. rewrite elem_of_app. tauto.
Qed.

Lemma bind_mret_l {A B} (a : A) (f : A -> M B) s : (mret a ≫= f) s = f a s.
Proof. unfold mbind, M_bind, mret, M_ret. simpl. by destruct (f a s) as [[s2 t2] r]. Qed.

(** Break a chain of binds, pattern-matching binders and base phases. *)
Ltac chain_tac bind_lemma base :=
  repeat first
    [ apply bind_lemma; [| intros ?]
    | match goal with
      | |- _ (match ?x with _ => _ end) => destruct x
      end
    | base ].

Ltac base_phase :=
  intros ?; unfold upsert, assign_ipv4, add_to_cluster; unfold_M'; split_innermost;
  simpl; repeat (constructor || discriminate).

Ltac keeps_tac :=
  chain_tac @keeps_bind ltac:(first [apply validate_keeps | base_phase]).

Ltac avoids_tac :=
  chain_tac @avoids_bind ltac:(first [apply validate_avoids | base_phase]).

Ltac codes_tac :=
  chain_tac @codes_bind ltac:(first
    [ let s0 := fresh in let c0 := fresh in let H := fresh in
      intros s0 c0 H; right; left; exact (validate_codes _ _ s0 c0 H)
    | let H := fresh in
      intros ? ?; unfold upsert, assign_ipv4, add_to_cluster; unfold_M'; split_innermost;
      intros H; simpl in H; first [discriminate | injection H as <-; auto] ]).

(** The part of Join after the leader check. *)
Lemma Join_leader env req s :
  StoreIsLeader env = true ->
  exists rest : unit -> M JoinResponse,
    Join env req s = (resolve_ula env ≫= rest) s /\
    (forall a, keeps (rest a)) /\ (forall a, avoids CGetULAPrefix (rest a)) /\
    (forall a, codes_in (λ c, c = Internal \/ c = InvalidArgument \/ c = GoPanic) (rest a)).
Proof.
  intros Hl. unfold Join. rewrite Hl, bind_mret_l.
  eexists. split; [reflexivity |]. split; [| split].
  - intros []. keeps_tac.
  - intros []. avoids_tac.
  - intros []. codes_tac.
Qed.

Lemma resolve_ula_codes env : codes_in (λ c, c = Internal) (resolve_ula env).
Proof.
  intros s c. unfold resolve_ula. unfold_M'. split_innermost; intros H; simpl in H;
    first [discriminate | by injection H as <-].
Qed.

Lemma resolve_ula_eq env s :
  resolve_ula env s =
  if String.eqb (ulaPrefix s) "" then
    match GetULAPrefix env with
    | Ok p => ({| ulaPrefix := p |}, [CGetULAPrefix], inr ())
    | Err _ => ({| ulaPrefix := "" |}, [CGetULAPrefix], inl Internal)
    end
  else (s, [], inr ()).
Proof.
  unfold resolve_ula. unfold_M. cbn.
  destruct (String.eqb _ _); [destruct (GetULAPrefix env)|]; reflexivity.
Qed.

Lemma Join_not_leader env req s :
  StoreIsLeader env = false -> Join env req s = (s, [], inl FailedPrecondition).
Proof. intros Hl. unfold Join. rewrite Hl. reflexivity. Qed.

Lemma Join_state_leader env req s :
  StoreIsLeader env = true -> (Join env req s).1.1 = (resolve_ula env s).1.1.
Proof.
  intros Hl. destruct (Join_leader env req s Hl) as (rest & -> & Hk & _ & _).
  by apply bind_state_right.
Qed.

End JoinPhaseFacts.

Module JoinMoreFacts.
Import Peers Join JoinFacts JoinPhaseFacts.

(** X10: the status codes of Join: on a follower it returns
    FailedPrecondition at once, with no call made and the server
    untouched; on the leader it ends early only with Internal,
    InvalidArgument or a panic (never FailedPrecondition,
    PermissionDenied or NotFound). *)
Theorem join_error_codes :
  forall (env : Env) (req : JoinRequest) (s : Server),
    (StoreIsLeader env = false -> Join env req s = (s, [], inl FailedPrecondition)) /\
    (StoreIsLeader env = true -> forall c, outcome_of (Join env req s) = inl c ->
       c = Internal \/ c = InvalidArgument \/ c = GoPanic).
Proof.
  intros env req s. split; [apply Join_not_leader |].
  intros Hl c Hc.
  destruct (Join_leader env req s Hl) as (rest & HJ & _ & _ & Hcodes).
  unfold outcome_of in Hc. rewrite HJ in Hc.
  refine (codes_bind _ _ _ _ Hcodes s c Hc).
  intros s0 c0 H0. left. exact (resolve_ula_codes env s0 c0 H0).
Qed.

(** X11: the ULA prefix cache. After Join the server holds the prefix
    looked up by this call when the leader had none cached (the zero
    prefix when the lookup failed), and is otherwise unchanged; the
    lookup [GetULAPrefix] is made exactly when the node is the leader
    and has no prefix cached. *)
Theorem join_caches_ula_prefix :
  forall (env : Env) (req : JoinRequest) (s : Server),
    (Join env req s).1.1
    = (if StoreIsLeader env && String.eqb (ulaPrefix s) "" then
         {| ulaPrefix := match GetULAPrefix env with Ok p => p | Err _ => "" end |}
       else s) /\
    (CGetULAPrefix ∈ trace_of (Join env req s) <->
     StoreIsLeader env = true /\ ulaPrefix s = "").
Proof.
  intros env req s. destruct (StoreIsLeader env) eqn:Hl.
  - split.
    + rewrite Join_state_leader by done. rewrite resolve_ula_eq. simpl.
      destruct (String.eqb (ulaPrefix s) ""); [| done].
      by destruct (GetULAPrefix env).
    + destruct (Join_leader env req s Hl) as (rest & HJ & _ & Hav & _).
      unfold trace_of. rewrite HJ, bind_in_iff by done. rewrite resolve_ula_eq.
      destruct (String.eqb_spec (ulaPrefix s) "") as [He|He].
      * split; [done |]. intros _. destruct (GetULAPrefix env); simpl; by left.
      * simpl. split; [intros Hin; by apply not_elem_of_nil in Hin | intros [_ ?]; done].
  - rewrite Join_not_leader by done. simpl. split; [done |].
    split; [intros Hin; by apply not_elem_of_nil in Hin | intros [? _]; done].
Qed.

(** X12: two Joins in a row on the leader: the second one looks the ULA
    prefix up again exactly when none was cached before the first and
    the first's lookup failed or returned the zero prefix. *)
Theorem join_prefix_looked_up_again_only_after_failure :
  forall (env env' : Env) (req req' : JoinRequest) (s : Server),
    StoreIsLeader env = true -> StoreIsLeader env' = true ->
    (CGetULAPrefix ∈ trace_of (Join env' req' (Join env req s).1.1) <->
     ulaPrefix s = "" /\ forall p, GetULAPrefix env = Ok p -> p = "").
Proof.
  intros env env' req req' s Hl Hl'.
  rewrite (proj2 (join_caches_ula_prefix env' req' _)).
  rewrite (proj1 (join_caches_ula_prefix env req s)), Hl. simpl.
  destruct (String.eqb_spec (ulaPrefix s) "") as [He|He].
  - destruct (GetULAPrefix env) as [p|m]; simpl.
    + split.
      * intros [_ ->]. split; [done | intros p' Hp; by injection Hp as <-].
      * intros [_ Hp]. split; [done | by apply Hp].
    + split; [intros _; split; [done | intros p Hp; discriminate] | done].
  - split; [intros [_ ?]; done | intros [? _]; done].
Qed.

(** A computation that issues [c] exactly when it returns normally. *)
Definition issues_iff_ok {A} (c : Call) (m : M A) : Prop :=
  forall s, c ∈ (m s).1.2 <-> exists a, (m s).2 = inr a.

Lemma issues_iff_ok_bind {A B} c (m : M A) (f : A -> M B) :
  avoids c m -> (forall a, issues_iff_ok c (f a)) -> issues_iff_ok c (m ≫= f).
Proof.
  intros Hm Hf s. pose proof (avoids_not_in c m s Hm) as Hn. unfold mbind, M_bind.
  destruct (m s) as [[s1 t1] [c'|a]]; simpl in *.
  - split; [done | intros [? ?]; discriminate].
  - specialize (Hf a s1). destruct (f a s1) as [[s2 t2] r]. simpl in *.
    rewrite elem_of_app, <- Hf. tauto.
Qed.

Lemma issues_iff_ok_last {A} c (r : A) : issues_iff_ok c (issue c;; mret r).
Proof.
  intros s. unfold mbind, M_bind, issue, mret, M_ret. simpl.
  split; [eauto | intros _; by left].
Qed.

(** X13: Join asks the store to refresh its WireGuard peers exactly when it
    succeeds: the deferred [RefreshWireguardPeers] is registered after
    the last early return, so no failed Join triggers it and every
    successful one does. *)
Theorem join_refresh_iff_success :
  forall (env : Env) (req : JoinRequest) (s : Server),
    CRefreshWireguardPeers ∈ trace_of (Join env req s) <->
    exists resp, outcome_of (Join env req s) = inr resp.
Proof.
  intros env req s. unfold trace_of, outcome_of. revert s. unfold Join.
  repeat first
    [ apply issues_iff_ok_last
    | apply issues_iff_ok_bind; [avoids_tac | intros ?]
    | match goal with |- issues_iff_ok _ (match ?x with _ => _ end) => destruct x end ].
Qed.

Ltac inr_chain :=
  repeat match goal with
  | H : (_ ≫= _) _ = (_, _, inr _) |- _ =>
      let Hc := fresh in let Hm := fresh "Hm" in
      apply bind_inv in H as [(? & ? & Hc) | (? & ? & ? & ? & Hm & H & ?)];
      [discriminate Hc |]
  | H : (match ?x with _ => _ end) _ = (_, _, inr _) |- _ => destruct x
  end.

(** X14: the peers of a successful Join's response are exactly the nodes
    [ListPeers] returned for the joining id, each rendered by the loop
    of lines 180-221, in order; the listing call is in the trace and the
    last call is the deferred [RefreshWireguardPeers]. *)
Theorem join_response_peers_are_listed_peers :
  forall (env : Env) (req : JoinRequest) (s : Server) (resp : JoinResponse),
    outcome_of (Join env req s) = inr resp ->
    exists peers : list Node,
      ListPeers env (Id req) = Ok peers /\
      RespPeers resp = map render peers /\
      CListPeers (Id req) ∈ trace_of (Join env req s) /\
      last (trace_of (Join env req s)) = Some CRefreshWireguardPeers.
Proof.
  intros env req s resp Hr. unfold outcome_of, trace_of in *.
  destruct (Join env req s) as [[s' t] r] eqn:HJ. simpl in *. subst r.
  unfold Join in HJ. inr_chain.
  repeat match goal with
  | H : check (ListPeers ?e ?i) ?c ?st = _ |- _ =>
      unfold check in H; destruct (ListPeers e i) eqn:?; [| discriminate H]
  end.
  repeat match goal with
  | H : mret _ _ = _ |- _ => unfold mret, M_ret in H; injection H as ?; subst
  | H : issue _ _ = _ |- _ => unfold issue in H; injection H as ?; subst
  end.
  all: try (match goal with H : throw _ _ = _ |- _ => unfold throw in H; discriminate H end).
  eexists. split; [reflexivity |]. split; [done |]. split.
  - set_solver.
  - by rewrite ?app_nil_r, !app_assoc, last_snoc.
Qed.

Lemma bind_inr_l {A B} (m : M A) (f : A -> M B) s s1 t1 a :
  m s = (s1, t1, inr a) ->
  (m ≫= f) s = let '(s2, t2, r) := f a s1 in (s2, t1 ++ t2, r).
Proof. intros H. unfold mbind, M_bind. by rewrite H. Qed.

Lemma bind_inl_l {A B} (m : M A) (f : A -> M B) s s1 t1 c :
  m s = (s1, t1, inl c) -> (m ≫= f) s = (s1, t1, inl c).
Proof. intros H. unfold mbind, M_bind. by rewrite H. Qed.

Lemma parsed_not_failed env l eps :
  Forall2 (λ e a, ParseAddr env e = Ok a) l eps ->
  ~ Exists (λ e, exists m, ParseAddr env e = Err m) l.
Proof.
  induction 1 as [|e a l eps He _ IH]; intros Hx; inversion Hx as [? ? [m Hm]|]; subst;
    [congruence | by apply IH].
Qed.

(** X15: Join returns InvalidArgument exactly when the node is the leader,
    the ULA prefix is cached or its lookup succeeds, and one of the
    input checks fails: an empty id, a public key that does not parse,
    a given primary endpoint that does not parse, or an endpoint that
    does not parse. It then returns before any registry call: the only
    call made is the prefix lookup, when no prefix was cached. *)
Theorem join_invalid_argument_iff_bad_input :
  forall (env : Env) (req : JoinRequest) (s : Server),
    (outcome_of (Join env req s) = inl InvalidArgument <->
     StoreIsLeader env = true /\
     (ulaPrefix s <> "" \/ exists p, GetULAPrefix env = Ok p) /\
     (Id req = "" \/ (exists m, ParseKey env (ReqPublicKey req) = Err m) \/
      (ReqPrimaryEndpoint req <> "" /\ exists m, ParseAddr env (ReqPrimaryEndpoint req) = Err m) \/
      Exists (λ e, exists m, ParseAddr env e = Err m) (ReqEndpoints req))) /\
    (outcome_of (Join env req s) = inl InvalidArgument ->
     trace_of (Join env req s) = (if String.eqb (ulaPrefix s) "" then [CGetULAPrefix] else [])).
Proof.
  intros env req s. unfold outcome_of, trace_of.
  destruct (StoreIsLeader env) eqn:Hl;
    [| rewrite Join_not_leader by done; simpl; split; [split; [discriminate | intros [? _]; discriminate] | discriminate]].
  unfold Join. rewrite Hl, bind_mret_l.
  destruct (resolve_ula env s) as [[s1 t1] r1] eqn:Hres.
  assert (Hr1 : match r1 with
                | inl c => c = Internal
                | inr _ => (ulaPrefix s <> "" \/ exists p, GetULAPrefix env = Ok p) /\
                           t1 = (if String.eqb (ulaPrefix s) "" then [CGetULAPrefix] else [])
                end /\
                (r1 = inl Internal <-> ~ (ulaPrefix s <> "" \/ exists p, GetULAPrefix env = Ok p))).
  { rewrite resolve_ula_eq in Hres.
    destruct (String.eqb_spec (ulaPrefix s) "") as [He|He].
    - destruct (GetULAPrefix env) as [p|m]; injection Hres as <- <- <-.
      + split; [split; [eauto | done] |]. split; [discriminate | intros H; exfalso; eauto].
      + split; [done |]. split; [intros _ [? | [? ?]]; [done | discriminate] | done].
    - injection Hres as <- <- <-. split; [split; [by left | done] |].
      split; [discriminate | intros H; exfalso; eauto]. }
  destruct r1 as [c1|[]].
  { destruct Hr1 as [-> [Hi _]]. rewrite (bind_inl_l _ _ _ _ _ _ Hres). simpl.
    split; [split; [discriminate | intros (_ & Hp & _); by apply Hi in Hp] | discriminate]. }
  destruct Hr1 as [[Hp Ht1] _].
  rewrite (bind_inr_l _ _ _ _ _ _ Hres). cbv beta.
  destruct (validate env req s1) as [[s2 t2] r2] eqn:Hval.
  pose proof (validate_frame env req s1) as Hf. rewrite Hval in Hf. injection Hf as -> ->.
  pose proof (validate_outcome env req s1) as Ho. rewrite Hval in Ho.
  destruct r2 as [c2|[[pk pe] eps]].
  - destruct Ho as [-> Hreason]. rewrite (bind_inl_l _ _ _ _ _ _ Hval). simpl.
    rewrite app_nil_r. split; [split; [done | eauto] | done].
  - destruct Ho as (Hid & Hk & Hpe & Heps).
    rewrite (bind_inr_l _ _ _ _ _ _ Hval). cbv beta iota.
    match goal with
    | |- context [?m s1] =>
        lazymatch m with mbind _ (upsert _ _ _ _ _) =>
          assert (Hco : codes_in (λ c, c = Internal \/ c = GoPanic) m) by codes_tac;
          pose proof (Hco s1) as Hx;
          destruct (m s1) as [[s3 t3] r3]
        end
    end.
    simpl. assert (Hne : r3 <> inl InvalidArgument)
      by (intros ->; by destruct (Hx _ eq_refl)).
    split; [split; [done |] | done].
    intros (_ & _ & Hreason). exfalso.
    destruct Hreason as [? | [[m Hm] | [[Hne' [m Hm]] | Hex]]].
    + done.
    + congruence.
    + destruct (String.eqb_spec (ReqPrimaryEndpoint req) ""); [done | congruence].
    + by apply (parsed_not_failed env (ReqEndpoints req) eps).
Qed.

(** [upsert] panics exactly when the id names a stored record and both
    that record and the request list endpoints; it has then made the one
    call [peers.Get] and left the server as it was. *)
Lemma upsert_panic env req pk pe eps s :
  ((upsert env req pk pe eps s).2 = inl GoPanic <->
   exists stored, PeersGet env (Id req) = Found stored /\ Endpoints stored <> [] /\ eps <> []) /\
  ((upsert env req pk pe eps s).2 = inl GoPanic ->
   (upsert env req pk pe eps s).1 = (s, [CPeersGet (Id req)])).
Proof.
  unfold upsert. unfold_M'. simpl.
  destruct (PeersGet env (Id req)) as [stored| |e] eqn:Hg; simpl.
  - rewrite apply_updates_eq.
    destruct (Endpoints stored) as [|x xs] eqn:He, eps as [|y ys]; simpl;
      try (destruct (PeersUpdate env _); simpl);
      (split; [split |]);
      first [ intros H; discriminate H
            | intros (st & Hst & Hne1 & Hne2); injection Hst as <-; congruence
            | intros _; exists stored; split; [done | split; congruence]
            | intros _; reflexivity
            | idtac ].
  - destruct (Random64 env (ulaPrefix s)); simpl;
      [match goal with |- context [PeersCreate env ?o] => destruct (PeersCreate env o) end; simpl |];
      (split; [split |]);
      first [ intros H; discriminate H | intros (st & Hst & _); discriminate Hst ].
  - split; [split |];
      first [ intros H; discriminate H | intros (st & Hst & _); discriminate Hst ].
Qed.

Lemma Forall2_ex_l {A B} (P : A -> B -> Prop) l k :
  Forall2 P l k -> Forall (λ x, exists y, P x y) l.
Proof. induction 1; constructor; eauto. Qed.

Lemma Forall2_nil_iff {A B} (P : A -> B -> Prop) l k :
  Forall2 P l k -> (l = [] <-> k = []).
Proof. destruct 1; split; done. Qed.

Lemma Forall_ex_Forall2 {A B} (P : A -> B -> Prop) l :
  Forall (λ x, exists y, P x y) l -> exists k, Forall2 P l k.
Proof.
  induction 1 as [|x l [y Hy] _ [k Hk]]; [by exists [] |]. exists (y :: k). by constructor.
Qed.

(** X21: Join panics exactly when a leader, having its ULA prefix, gets a
    valid request (non-empty id, parsing key, primary endpoint and
    endpoints) that lists at least one endpoint, for an id whose stored
    record also lists endpoints: [cmp.Equal] on the two [[]netip.Addr]
    then panics. The handler has then called only the prefix lookup
    (when no prefix was cached) and [peers.Get]. *)
Theorem join_panics_iff_rejoin_with_endpoints :
  forall (env : Env) (req : JoinRequest) (s : Server),
    (outcome_of (Join env req s) = inl GoPanic <->
     StoreIsLeader env = true /\
     (ulaPrefix s <> "" \/ exists p, GetULAPrefix env = Ok p) /\
     Id req <> "" /\ (exists k, ParseKey env (ReqPublicKey req) = Ok k) /\
     (ReqPrimaryEndpoint req = "" \/ exists a, ParseAddr env (ReqPrimaryEndpoint req) = Ok a) /\
     Forall (λ e, exists a, ParseAddr env e = Ok a) (ReqEndpoints req) /\
     ReqEndpoints req <> [] /\
     exists stored, PeersGet env (Id req) = Found stored /\ Endpoints stored <> []) /\
    (outcome_of (Join env req s) = inl GoPanic ->
     trace_of (Join env req s)
     = (if String.eqb (ulaPrefix s) "" then [CGetULAPrefix] else []) ++ [CPeersGet (Id req)]).
Proof.
  intros env req s. unfold outcome_of, trace_of.
  destruct (StoreIsLeader env) eqn:Hl;
    [| rewrite Join_not_leader by done; simpl; split; [split; [discriminate | intros [? _]; discriminate] | discriminate]].
  unfold Join. rewrite Hl, bind_mret_l.
  destruct (resolve_ula env s) as [[s1 t1] r1] eqn:Hres.
  assert (Hr1 : match r1 with
                | inl c => c = Internal
                | inr _ => (ulaPrefix s <> "" \/ exists p, GetULAPrefix env = Ok p) /\
                           t1 = (if String.eqb (ulaPrefix s) "" then [CGetULAPrefix] else [])
                end /\
                (r1 = inl Internal <-> ~ (ulaPrefix s <> "" \/ exists p, GetULAPrefix env = Ok p))).
  { rewrite resolve_ula_eq in Hres.
    destruct (String.eqb_spec (ulaPrefix s) "") as [He|He].
    - destruct (GetULAPrefix env) as [p|m]; injection Hres as <- <- <-.
      + split; [split; [eauto | done] |]. split; [discriminate | intros H; exfalso; eauto].
      + split; [done |]. split; [intros _ [? | [? ?]]; [done | discriminate] | done].
    - injection Hres as <- <- <-. split; [split; [by left | done] |].
      split; [discriminate | intros H; exfalso; eauto]. }
  destruct r1 as [c1|[]].
  { destruct Hr1 as [-> [Hi _]]. rewrite (bind_inl_l _ _ _ _ _ _ Hres). simpl.
    split; [split; [discriminate | intros (_ & Hp & _); by apply Hi in Hp] | discriminate]. }
  destruct Hr1 as [[Hp Ht1] _].
  rewrite (bind_inr_l _ _ _ _ _ _ Hres). cbv beta.
  destruct (validate env req s1) as [[s2 t2] r2] eqn:Hval.
  pose proof (validate_frame env req s1) as Hf. rewrite Hval in Hf. injection Hf as -> ->.
  pose proof (validate_outcome env req s1) as Ho. rewrite Hval in Ho.
  destruct r2 as [c2|[[pk pe] eps]].
  - destruct Ho as [-> Hreason]. rewrite (bind_inl_l _ _ _ _ _ _ Hval). simpl.
    split; [split; [discriminate |] | discriminate].
    intros (_ & _ & Hid & [k Hk] & Hpe & Heps & _). exfalso.
    destruct Hreason as [? | [[m Hm] | [[Hne [m Hm]] | Hex]]].
    + done.
    + congruence.
    + destruct Hpe as [? | [a Ha]]; [done | congruence].
    + destruct (Forall_ex_Forall2 _ _ Heps) as [k' Hk'].
      by apply (parsed_not_failed env (ReqEndpoints req) k').
  - destruct Ho as (Hid & Hk & Hpe & Heps).
    rewrite (bind_inr_l _ _ _ _ _ _ Hval). cbv beta iota.
    assert (Hreq : ReqEndpoints req = [] <-> eps = []) by exact (Forall2_nil_iff _ _ _ Heps).
    assert (Hvalid : Id req <> "" /\ (exists k, ParseKey env (ReqPublicKey req) = Ok k) /\
              (ReqPrimaryEndpoint req = "" \/ exists a, ParseAddr env (ReqPrimaryEndpoint req) = Ok a) /\
              Forall (λ e, exists a, ParseAddr env e = Ok a) (ReqEndpoints req)).
    { split; [done | split; [eauto | split; [| exact (Forall2_ex_l _ _ _ Heps)]]].
      destruct (String.eqb_spec (ReqPrimaryEndpoint req) ""); [by left | right; eauto]. }
    pose proof (upsert_panic env req pk pe eps s1) as [Hpi Hpt].
    destruct (upsert env req pk pe eps s1) as [[s3 t3] r3] eqn:Hu. simpl in Hpi, Hpt.
    destruct r3 as [c3|n].
    + rewrite (bind_inl_l _ _ _ _ _ _ Hu). simpl.
      split; [split |].
      * intros Hc3. injection Hc3 as ->.
        destruct (proj1 Hpi eq_refl) as (stored & Hg & Hne & Hne').
        split; [done | split; [done |]]. destruct Hvalid as (? & ? & ? & ?).
        do 4 (split; [done |]). split; [by rewrite Hreq |]. eauto.
      * intros (_ & _ & _ & _ & _ & _ & Hne' & stored & Hg & Hne).
        cut (@inl Code Node c3 = inl GoPanic); [congruence |].
        apply Hpi. exists stored. split; [done | split; [done |]]. by rewrite <- Hreq.
      * intros Hc3. injection Hc3 as ->. injection (Hpt eq_refl) as -> ->. by rewrite Ht1.
    + rewrite (bind_inr_l _ _ _ _ _ _ Hu).
      cbv beta.
      match goal with
      | |- context [?m s3] =>
          lazymatch m with mbind _ (assign_ipv4 _ _) =>
            assert (Hx : codes_in (λ c, c = Internal) m) by codes_tac;
            specialize (Hx s3); destruct (m s3) as [[s4 t4] r4]
          end
      end.
      simpl.
      assert (Hnp : ~ (exists stored, PeersGet env (Id req) = Found stored /\
                                      Endpoints stored <> [] /\ eps <> [])).
      { intros Hex. apply Hpi in Hex. discriminate. }
      split; [split |].
      * intros ->. by specialize (Hx _ eq_refl).
      * intros (_ & _ & _ & _ & _ & _ & Hne' & stored & Hg & Hne). exfalso.
        apply Hnp. exists stored. split; [done | split; [done |]]. by rewrite <- Hreq.
      * intros ->. by specialize (Hx _ eq_refl).
Qed.

(** X16: when Join registers a new node, the [peers.Create] options carry
    the request's id and ports, the parsed key, primary endpoint ("" when
    the request has none) and endpoints, and an IPv6 address drawn by
    [Random64] from the ULA prefix the server caches; Create is only
    called when [peers.Get] reported the id unknown. *)
Theorem join_create_options :
  forall (env : Env) (req : JoinRequest) (s : Server) (o : CreateOptions),
    CPeersCreate o ∈ trace_of (Join env req s) ->
    PeersGet env (Id req) = ErrNodeNotFound /\
    CID o = Id req /\ ParseKey env (ReqPublicKey req) = Ok (CPublicKey o) /\
    (if String.eqb (ReqPrimaryEndpoint req) "" then CPrimaryEndpoint o = ""
     else ParseAddr env (ReqPrimaryEndpoint req) = Ok (CPrimaryEndpoint o)) /\
    Forall2 (λ e a, ParseAddr env e = Ok a) (ReqEndpoints req) (CEndpoints o) /\
    Random64 env (ulaPrefix (Join env req s).1.1) = Ok (CNetworkIPv6 o) /\
    CGRPCPort o = GrpcPort req /\ CRaftPort o = ReqRaftPort req /\
    CWireguardPort o = ReqWireguardPort req.
Proof.
  intros env req s o Hin. unfold trace_of in Hin.
  destruct (StoreIsLeader env) eqn:Hl;
    [| rewrite Join_not_leader in Hin by done; simpl in Hin; by apply not_elem_of_nil in Hin].
  rewrite Join_state_leader by done.
  unfold Join in Hin. rewrite Hl, bind_mret_l in Hin.
  apply bind_in_right in Hin as (s1 & t1 & [] & Hres & Hin); [| unfold resolve_ula; base_phase].
  rewrite Hres. simpl. cbv beta in Hin.
  apply bind_in_right in Hin as (s2 & t2 & [[pk pe] eps] & Hval & Hin); [| apply validate_avoids].
  pose proof (validate_frame env req s1) as Hf. rewrite Hval in Hf. injection Hf as -> ->.
  pose proof (validate_outcome env req s1) as Ho. rewrite Hval in Ho.
  destruct Ho as (_ & Hk & Hpe & Heps).
  cbv beta iota in Hin. apply bind_in_left in Hin; [| intros ?; avoids_tac].
  unfold upsert in Hin. unfold mbind, M_bind, issue, get_server, check in Hin.
  unfold mret, M_ret, throw in Hin.
  destruct (PeersGet env (Id req)) eqn:Hg; simpl in Hin.
  - destruct (apply_updates _ _ _ _ _); simpl in Hin; [| set_solver].
    destruct (PeersUpdate env _); simpl in Hin; set_solver.
  - destruct (Random64 env (ulaPrefix s1)) eqn:Hr; simpl in Hin; [| set_solver].
    assert (Ho : CPeersCreate o ∈ [CPeersCreate
               {| CID := Id req; CPublicKey := pk; CPrimaryEndpoint := pe; CEndpoints := eps;
                  CNetworkIPv6 := a; CGRPCPort := GrpcPort req; CRaftPort := ReqRaftPort req;
                  CWireguardPort := ReqWireguardPort req |}])
      by (destruct (PeersCreate env _); simpl in Hin; set_solver).
    apply list_elem_of_singleton in Ho. injection Ho as ->. simpl.
    repeat split; done.
  - set_solver.
Qed.

(** X17: the rendering of a peer for the response: the WireGuard port
    enters the endpoints only through [uint16], so ports that agree
    modulo 65536 render alike; every stored endpoint gives one rendered
    endpoint; and the primary endpoint is rendered empty exactly when
    the stored one is absent. *)
Theorem render_port_uint16_and_shape :
  forall (peer : Node) (k : Z),
    render (set_WireguardPort peer (WireguardPort peer + k * 65536)) = render peer /\
    length (WEndpoints (render peer)) = length (Endpoints peer) /\
    (WPrimaryEndpoint (render peer) = "" <-> PrimaryEndpoint peer = "").
Proof.
  intros peer k. split; [| split].
  - unfold render, set_WireguardPort, AddrPortString. simpl.
    by rewrite Z_mod_plus_full.
  - unfold render. simpl. apply length_map.
  - unfold render. simpl. destruct (String.eqb_spec (PrimaryEndpoint peer) "") as [He|He].
    + done.
    + split; [| done]. unfold AddrPortString, JoinHostPort.
      destruct (has_colon _); [discriminate |].
      destruct (PrimaryEndpoint peer); [done | discriminate].
Qed.

(** A request for the unknown id [c]. *)
Definition join_c : JoinRequest :=
  {| Id := "c"; ReqPublicKey := "kc"; ReqPrimaryEndpoint := ""; ReqEndpoints := ["198.51.100.4"];
     GrpcPort := 8443; ReqRaftPort := 9443; ReqWireguardPort := 51820;
     AssignIpv4 := false; PreferRaftIpv6 := false; AsVoter := false |}.

Definition create_c : CreateOptions :=
  {| CID := "c"; CPublicKey := "kc"; CPrimaryEndpoint := ""; CEndpoints := ["198.51.100.4"];
     CNetworkIPv6 := "fd00::c/128"; CGRPCPort := 8443; CRaftPort := 9443; CWireguardPort := 51820 |}.

Lemma join_prefix_looked_up_again_only_after_failure_witness :
  StoreIsLeader (env_b (Err "meshstate unavailable")) = true /\
  StoreIsLeader (env_b (Ok "fd00::/48")) = true /\
  (CGetULAPrefix ∈ trace_of (Join (env_b (Ok "fd00::/48")) (join_b false false)
                              (Join (env_b (Err "meshstate unavailable")) (join_b false false) server0).1.1)
   <-> ulaPrefix server0 = "" /\
       forall p, GetULAPrefix (env_b (Err "meshstate unavailable")) = Ok p -> p = "").
Proof.
  assert (H1 : StoreIsLeader (env_b (Err "meshstate unavailable")) = true) by reflexivity.
  assert (H2 : StoreIsLeader (env_b (Ok "fd00::/48")) = true) by reflexivity.
  split; [exact H1 | split; [exact H2 |]].
  exact (join_prefix_looked_up_again_only_after_failure _ _ (join_b false false) (join_b false false)
           server0 H1 H2).
Defined.

(** Two registered peers, one with an IPv4 primary endpoint and an IPv6
    endpoint, one with neither; [env_peers] lists them for every id. *)
Definition peer_a : Node :=
  {| ID := "a"; PublicKey := "ka"; PrimaryEndpoint := "198.51.100.9";
     Endpoints := ["2001:db8::9"]; NetworkIPv6 := "fd00::a/128"; PrivateIPv4 := "10.0.0.1/32";
     GRPCPort := 8443; RaftPort := 9443; WireguardPort := 51820 |}.

Definition peer_c : Node :=
  {| ID := "c"; PublicKey := "kc"; PrimaryEndpoint := ""; Endpoints := [];
     NetworkIPv6 := "fd00::c/128"; PrivateIPv4 := ""; GRPCPort := 8443;
     RaftPort := 9443; WireguardPort := 51821 |}.

Definition env_peers : Env :=
  let e := env_b (Ok "fd00::/48") in
  {| StoreIsLeader := StoreIsLeader e; GetULAPrefix := GetULAPrefix e;
     ParseKey := ParseKey e; ParseAddr := ParseAddr e; PeersGet := PeersGet e;
     PeersUpdate := PeersUpdate e; Random64 := Random64 e; PeersCreate := PeersCreate e;
     Acquire := Acquire e; ListPeers := λ _, Ok [peer_a; peer_c];
     AddVoter := AddVoter e; AddNonVoter := AddNonVoter e; PrefixAddr := PrefixAddr e |}.

Definition resp_b : JoinResponse :=
  {| RespNetworkIpv6 := "fd00::b/128"; RespAddressIpv4 := "10.0.0.2/32";
     RespPeers :=
       [ {| WId := "a"; WPublicKey := "ka"; WPrimaryEndpoint := "198.51.100.9:51820";
            WEndpoints := ["[2001:db8::9]:51820"]; WAddressIpv4 := "10.0.0.1/32";
            WAddressIpv6 := "fd00::a/128" |};
         {| WId := "c"; WPublicKey := "kc"; WPrimaryEndpoint := ""; WEndpoints := [];
            WAddressIpv4 := ""; WAddressIpv6 := "fd00::c/128" |} ] |}.

Lemma join_response_peers_are_listed_peers_witness :
  outcome_of (Join env_peers (join_b true false) server0) = inr resp_b /\
  exists peers : list Node,
    ListPeers env_peers (Id (join_b true false)) = Ok peers /\
    RespPeers resp_b = map render peers /\
    CListPeers (Id (join_b true false)) ∈ trace_of (Join env_peers (join_b true false) server0) /\
    last (trace_of (Join env_peers (join_b true false) server0))
    = Some CRefreshWireguardPeers.
Proof.
  assert (H : outcome_of (Join env_peers (join_b true false) server0) = inr resp_b)
    by reflexivity.
  split; [exact H |].
  exact (join_response_peers_are_listed_peers _ _ _ _ H).
Defined.

Lemma join_create_options_witness :
  CPeersCreate create_c ∈ trace_of (Join (env_b (Ok "fd00::/48")) join_c server0) /\
  PeersGet (env_b (Ok "fd00::/48")) (Id join_c) = ErrNodeNotFound /\
  CID create_c = Id join_c /\
  ParseKey (env_b (Ok "fd00::/48")) (ReqPublicKey join_c) = Ok (CPublicKey create_c) /\
  (if String.eqb (ReqPrimaryEndpoint join_c) "" then CPrimaryEndpoint create_c = ""
   else ParseAddr (env_b (Ok "fd00::/48")) (ReqPrimaryEndpoint join_c) = Ok (CPrimaryEndpoint create_c)) /\
  Forall2 (λ e a, ParseAddr (env_b (Ok "fd00::/48")) e = Ok a) (ReqEndpoints join_c) (CEndpoints create_c) /\
  Random64 (env_b (Ok "fd00::/48")) (ulaPrefix (Join (env_b (Ok "fd00::/48")) join_c server0).1.1)
  = Ok (CNetworkIPv6 create_c) /\
  CGRPCPort create_c = GrpcPort join_c /\ CRaftPort create_c = ReqRaftPort join_c /\
  CWireguardPort create_c = ReqWireguardPort join_c.
Proof.
  assert (H : CPeersCreate create_c ∈ trace_of (Join (env_b (Ok "fd00::/48")) join_c server0)).
  { assert (Ht : trace_of (Join (env_b (Ok "fd00::/48")) join_c server0)
                 = [CGetULAPrefix; CPeersGet "c"; CPeersCreate create_c]) by reflexivity.
    rewrite Ht. apply list_elem_of_In. simpl. tauto. }
  split; [exact H |].
  exact (join_create_options _ _ _ _ H).
Defined.

End JoinMoreFacts.

Module CampfireMoreFacts.
Import Chan Campfire CampfireFacts.

(** X18: [New] fails at the first step that returns an error, and closes
    the peer connection exactly when that step comes after its creation.
    A failure to find the camp fire makes no WebRTC call; a failure to
    create the peer connection makes only that call; otherwise the six
    later steps (data channel, offer, local description, unmarshal,
    marshal, remote description) run in order, and [New] fails iff one of
    them returns an error: the calls are then the creation, the steps up
    to the first failing one and one [Close], and the error is that step's
    message wrapping its error; a camp fire is returned only when all six
    succeed, with the seven calls and no [Close]. *)
Theorem campfire_new_closes_connection_on_failure :
  forall (env : Campfire.Env) (h : Heap) (opts : Options),
    match FindCampFire env (PSK opts) (TURNServers opts) with
    | Join.Err e => New env h opts = (h, [], inl ("find camp fire: " +:+ e))
    | Join.Ok loc =>
        let turn := if String.prefix "stun:" (TURNServer loc) then TURNServer loc
                    else "stun:" +:+ TURNServer loc in
        match NewPeerConnection env [turn] with
        | Some e =>
            New env h opts = (h, [CNewPeerConnection [turn]], inl ("new peer connection: " +:+ e))
        | None =>
            let calls := [CCreateDataChannel (Secret loc); CCreateOffer; CSetLocalDescription;
                          CUnmarshal; CMarshal; CSetRemoteDescription] in
            let results := [CreateDataChannel env (Secret loc); CreateOffer env;
                            SetLocalDescription env; Unmarshal env; Marshal env;
                            SetRemoteDescription env] in
            let msgs := ["create data channel"; "create offer"; "set local description";
                         "unmarshal local description"; "marshal session description";
                         "set remote description"] in
            (forall m, (New env h opts).2 = inl m ->
               exists i e msg,
                 results !! i = Some (Some e) /\
                 (forall j, (j < i)%nat -> results !! j = Some None) /\
                 msgs !! i = Some msg /\ m = msg +:+ ": " +:+ e /\
                 (New env h opts).1.2 = CNewPeerConnection [turn] :: take (S i) calls ++ [CPCClose]) /\
            (forall cf, (New env h opts).2 = inr cf ->
               Forall (λ r, r = None) results /\
               (New env h opts).1.2 = CNewPeerConnection [turn] :: calls)
        end
    end.
Proof.
  intros env h opts. unfold New.
  destruct (FindCampFire env (PSK opts) (TURNServers opts)) as [loc|e]; [| done].
  cbv zeta.
  destruct (NewPeerConnection env _); [done |].
  cbn [run_steps].
  repeat case_match; simpl; simplify_eq;
    split; intros ? Hr; simplify_eq;
    try (split; [repeat constructor | reflexivity]);
    match goal with
    | |- exists i e msg, _ =>
        let rec try_i n :=
          first [ exists n; eexists; eexists;
                  split; [reflexivity |];
                  split; [intros j Hj; do 6 (destruct j as [|j]; [first [reflexivity | lia] |]); lia |];
                  split; [reflexivity |]; split; reflexivity
                | try_i (S n) ] in
        try_i 0%nat
    | _ => idtac
    end.
Qed.

Lemma prefix_app (p x : string) : String.prefix p (p +:+ x) = true.
Proof.
  induction p as [|a p IH]; simpl; [by destruct x |].
  destruct (ascii_dec a a) as [_|n]; [exact IH | by destruct n].
Qed.

(** X19: the ICE server [New] hands to the peer connection is the camp
    fire's server with a [stun:] scheme: a server already written with
    [stun:] is passed unchanged, any other one (even a [turn:] URL) gets
    [stun:] prepended. *)
Theorem campfire_ice_server_stun_scheme :
  forall (env : Campfire.Env) (h : Heap) (opts : Options) (urls : list string),
    CNewPeerConnection urls ∈ (New env h opts).1.2 ->
    exists loc, FindCampFire env (PSK opts) (TURNServers opts) = Join.Ok loc /\
      exists u, urls = [u] /\ String.prefix "stun:" u = true /\
        (String.prefix "stun:" (TURNServer loc) = true -> u = TURNServer loc) /\
        (String.prefix "stun:" (TURNServer loc) = false -> u = "stun:" +:+ TURNServer loc).
Proof.
  intros env h opts urls Hin. unfold New in Hin.
  destruct (FindCampFire env (PSK opts) (TURNServers opts)) as [loc|e];
    [| simpl in Hin; set_solver].
  exists loc. split; [done |].
  set (turn := if String.prefix "stun:" (TURNServer loc) then TURNServer loc
               else "stun:" +:+ TURNServer loc) in Hin.
  assert (Hu : urls = [turn]).
  { destruct (NewPeerConnection env [turn]); simpl in Hin; [set_solver |].
    cbn [run_steps] in Hin. repeat case_match; simpl in Hin; simplify_eq; set_solver. }
  exists turn. split; [done |]. subst turn.
  destruct (String.prefix "stun:" (TURNServer loc)) eqn:Hp.
  - split; [done | split; [done | discriminate]].
  - split; [apply prefix_app | split; [discriminate | done]].
Qed.

(** X20: an error from [dc.Detach()] reaches the caller: on a camp fire
    [New] returned, the [OnOpen] handler's send on the buffered [errc]
    completes, a receive on [Errors()] then yields that error, and a
    further receive waits; a second error sent before the first is read
    would wait, [errc] holding one error. *)
Theorem campfire_detach_error_delivered_on_errors :
  forall (env : Campfire.Env) (h : Heap) (opts : Options) (e e' : string),
    match New env h opts with
    | (h', _, inr cf) =>
        exists h2, (OnOpen (Join.Err e) h' cf).1 = Ok h2 /\
          (OnOpen (Join.Err e') h2 cf).1 = WouldBlock /\
          exists h3, recv h2 (Errors cf) = Received e h3 /\
                     recv h3 (Errors cf) = RecvWouldBlock
    | _ => True
    end.
Proof.
  intros env h opts e e'. unfold New.
  destruct (FindCampFire env (PSK opts) (TURNServers opts)) as [loc|x]; [| exact I].
  destruct (NewPeerConnection env _); [exact I |].
  destruct (run_steps _) as [t [x|]]; [exact I |].
  pose proof (make_twice_lookup_first h) as Hl. simpl in Hl |- *.
  unfold OnOpen, Errors. cbn [errc]. unfold send. rewrite Hl. simpl.
  eexists. split; [reflexivity |]. split.
  - simpl. rewrite lookup_insert_eq. reflexivity.
  - unfold recv. simpl. rewrite lookup_insert_eq. simpl.
    eexists. split; [reflexivity |]. simpl. by rewrite lookup_insert_eq.
Qed.

Lemma campfire_ice_server_stun_scheme_witness :
  CNewPeerConnection ["stun:127.0.0.1:3478"] ∈ (New env_ok empty_heap opts0).1.2 /\
  exists loc, FindCampFire env_ok (PSK opts0) (TURNServers opts0) = Join.Ok loc /\
    exists u, ["stun:127.0.0.1:3478"] = [u] /\ String.prefix "stun:" u = true /\
      (String.prefix "stun:" (TURNServer loc) = true -> u = TURNServer loc) /\
      (String.prefix "stun:" (TURNServer loc) = false -> u = "stun:" +:+ TURNServer loc).
Proof.
  assert (H : CNewPeerConnection ["stun:127.0.0.1:3478"] ∈ (New env_ok empty_heap opts0).1.2).
  { assert (Ht : (New env_ok empty_heap opts0).1.2
                 = [CNewPeerConnection ["stun:127.0.0.1:3478"]; CCreateDataChannel "s3cr3t";
                    CCreateOffer; CSetLocalDescription; CUnmarshal; CMarshal;
                    CSetRemoteDescription]) by reflexivity.
    rewrite Ht. apply list_elem_of_In. simpl. tauto. }
  split; [exact H |].
  exact (campfire_ice_server_stun_scheme env_ok empty_heap opts0 _ H).
Defined.

End CampfireMoreFacts.
